(** * Schnorr / Sigma identification notebooks: a shallow embedding

    The Python cells of [Sigma-Protocol/sigma_2.ipynb],
    [Schnorr-Protocol/schnorr_2.ipynb] and [Schnorr-Protocol/schnorr_3.ipynb]
    are embedded as Rocq functions.  Python integers are [Z]; a function that
    can raise returns a [result]; [random.randint] reads an explicit entropy
    tape; a proof dictionary is a [gmap string Z]. *)

From Stdlib Require Import ZArith Zpow_facts Lia List.
From Stdlib Require Import Strings.String Strings.Ascii Strings.Byte.
From Stdlib Require Import DecimalString DecimalZ.
From stdpp Require Import base option gmap strings.
Import ListNotations.

Local Open Scope Z_scope.

(** ** Python runtime: exceptions, integer operators, [random.randint] *)

Module Py.

(** Exception classes.  The first four are the built-in classes the modelled
    cells can raise.  [ParameterGenerationError] and [InvalidParametersError]
    are the classes named by the specification's error taxonomy; no cell
    defines or raises them. *)
Inductive exn : Set :=
| ValueError
| ZeroDivisionError
| KeyError
| TypeError
| ParameterGenerationError
| InvalidParametersError.

Inductive result (A : Type) : Type :=
| Ok (a : A)
| Raise (e : exn).
Arguments Ok {A} a.
Arguments Raise {A} e.

#[global] Instance result_ret : MRet result := λ A a, Ok a.
#[global] Instance result_bind : MBind result :=
  λ A B f m, match m with Ok a => f a | Raise e => Raise e end.

(** [a % b]: floor remainder, sign of the divisor; [b = 0] raises. *)
Definition py_mod (a b : Z) : result Z :=
  if b =? 0 then Raise ZeroDivisionError else Ok (a mod b).

(** [a // b]: floor quotient; [b = 0] raises. *)
Definition py_floordiv (a b : Z) : result Z :=
  if b =? 0 then Raise ZeroDivisionError else Ok (a / b).

(** [range(a, b)] *)
Definition py_range (a b : Z) : list Z :=
  map (λ i, a + Z.of_nat i) (seq 0 (Z.to_nat (b - a))).

(** [pow(a, e, m)].  A zero modulus raises [ValueError]; a negative exponent
    needs [a] invertible modulo [m] and raises [ValueError] otherwise; the
    result has the sign of [m], like [%]. *)
Definition py_pow (a e m : Z) : result Z :=
  if m =? 0 then Raise ValueError
  else if 0 <=? e then Ok (Zpow_mod a e m)
  else if Z.gcd a m =? 1 then Ok (Zpow_mod (Z.invmod a (Z.abs m)) (- e) m)
  else Raise ValueError.

(** [int(n ** 0.5)].  A negative base makes [n ** 0.5] complex, and [int] of
    a complex raises [TypeError].  On the integers the cells use (at most
    10000) the double truncates to the integer square root. *)
Definition py_isqrt (n : Z) : result Z :=
  if n <? 0 then Raise TypeError else Ok (Z.sqrt n).

(** [all(f(i) for i in l)], stopping at the first false element. *)
Fixpoint py_all (f : Z → result bool) (l : list Z) : result bool :=
  match l with
  | [] => Ok true
  | i :: l' => b ← f i; if b : bool then py_all f l' else Ok false
  end.

(** The random source: a tape of entropy words and a read position. *)
Record rng : Type := { tape : nat → Z; pos : nat }.

Definition advance (st : rng) : rng :=
  {| tape := tape st; pos := S (pos st) |}.

(** Computations that may consume randomness and may raise. *)
Definition M (A : Type) : Type := rng → result (A * rng).

#[global] Instance M_ret : MRet M := λ A a st, Ok (a, st).
#[global] Instance M_bind : MBind M :=
  λ A B f m st,
    match m st with
    | Ok (a, st') => f a st'
    | Raise e => Raise e
    end.

Definition lift {A} (r : result A) : M A :=
  λ st, match r with Ok a => Ok (a, st) | Raise e => Raise e end.

(** [random.randint(a, b)]: an integer of [a..b], both ends included; an
    empty range raises [ValueError] and reads nothing. *)
Definition randint (a b : Z) : M Z :=
  λ st,
    if b <? a then Raise ValueError
    else Ok (a + tape st (pos st) mod (b - a + 1), advance st).

End Py.
Import Py.

(** ** [hashlib.sha256] (FIPS 180-4) and [int.from_bytes] *)

Module SHA256.

Definition w32 (x : Z) : Z := x mod 2 ^ 32.
Definition add32 (a b : Z) : Z := w32 (a + b).
Definition rotr (n x : Z) : Z :=
  Z.lor (Z.shiftr x n) (w32 (Z.shiftl x (32 - n))).
Definition not32 (x : Z) : Z := Z.lxor x 0xffffffff.

Definition Ch (x y z : Z) : Z := Z.lxor (Z.land x y) (Z.land (not32 x) z).
Definition Maj (x y z : Z) : Z :=
  Z.lxor (Z.lxor (Z.land x y) (Z.land x z)) (Z.land y z).
Definition Sigma0 (x : Z) : Z :=
  Z.lxor (Z.lxor (rotr 2 x) (rotr 13 x)) (rotr 22 x).
Definition Sigma1 (x : Z) : Z :=
  Z.lxor (Z.lxor (rotr 6 x) (rotr 11 x)) (rotr 25 x).
Definition sigma0 (x : Z) : Z :=
  Z.lxor (Z.lxor (rotr 7 x) (rotr 18 x)) (Z.shiftr x 3).
Definition sigma1 (x : Z) : Z :=
  Z.lxor (Z.lxor (rotr 17 x) (rotr 19 x)) (Z.shiftr x 10).

(** The first [n] primes, by trial division from [k] upwards. *)
Fixpoint primes_from (fuel n : nat) (k : Z) : list Z :=
  match fuel, n with
  | O, _ | _, O => []
  | S fuel', S n' =>
      if forallb (λ d, negb (k mod d =? 0)) (py_range 2 k)
      then k :: primes_from fuel' n' (k + 1)
      else primes_from fuel' n (k + 1)
  end.

(** Integer cube root, one bit at a time from bit [n - 1] down. *)
Fixpoint icbrt_from (n : nat) (x acc : Z) : Z :=
  match n with
  | O => acc
  | S k =>
      let c := acc + 2 ^ Z.of_nat k in
      if c * c * c <=? x then icbrt_from k x c else icbrt_from k x acc
  end.

(** Round constants: the first 32 bits of the fractional parts of the cube
    roots of the first 64 primes. *)
Definition K : list Z :=
  Eval vm_compute in
    map (λ p, w32 (icbrt_from 36 (p * 2 ^ 96) 0)) (primes_from 400 64 2).

(** Initial hash value: the first 32 bits of the fractional parts of the
    square roots of the first 8 primes. *)
Definition H0 : list Z :=
  Eval vm_compute in
    map (λ p, w32 (Z.sqrt (p * 2 ^ 64))) (primes_from 400 8 2).

(** Big-endian bytes of [x], [n] of them. *)
Fixpoint be_bytes (n : nat) (x : Z) : list Z :=
  match n with
  | O => []
  | S k => (Z.shiftr x (8 * Z.of_nat k)) mod 256 :: be_bytes k x
  end.

(** Big-endian value of a byte list. *)
Definition be_value (bs : list Z) : Z :=
  fold_left (λ acc b, acc * 256 + b) bs 0.

(** Padding: a one bit, zero bits up to 56 modulo 64 bytes, the bit length. *)
Definition pad (msg : list Z) : list Z :=
  let len := Z.of_nat (length msg) in
  msg ++ [0x80] ++ repeat 0 (Z.to_nat ((55 - len) mod 64))
      ++ be_bytes 8 (8 * len).

(** Cut a list into groups of [n] ([fuel] bounds the number of groups). *)
Fixpoint chunks {A} (fuel n : nat) (l : list A) : list (list A) :=
  match fuel with
  | O => []
  | S k => match l with
           | [] => []
           | _ => firstn n l :: chunks k n (skipn n l)
           end
  end.

Definition words_of_block (blk : list Z) : list Z :=
  map be_value (chunks 16 4 blk).

(** Message schedule; [rw] holds the words computed so far, newest first. *)
Fixpoint schedule (n : nat) (rw : list Z) : list Z :=
  match n with
  | O => rev rw
  | S k =>
      let w := add32 (add32 (sigma1 (nth 1 rw 0)) (nth 6 rw 0))
                     (add32 (sigma0 (nth 14 rw 0)) (nth 15 rw 0)) in
      schedule k (w :: rw)
  end.

Definition round (st : list Z) (kw : Z * Z) : list Z :=
  match st with
  | [a; b; c; d; e; f; g; h] =>
      let t1 := add32 (add32 (add32 h (Sigma1 e)) (add32 (Ch e f g) (fst kw)))
                      (snd kw) in
      let t2 := add32 (Sigma0 a) (Maj a b c) in
      [add32 t1 t2; a; b; c; add32 d t1; e; f; g]
  | _ => st
  end.

Definition compress (hs : list Z) (blk : list Z) : list Z :=
  let w := schedule 48 (rev (words_of_block blk)) in
  let st := fold_left round (combine K w) hs in
  map (λ xy, add32 (fst xy) (snd xy)) (combine hs st).

Definition byte_of_Z (z : Z) : byte :=
  match Byte.of_N (Z.to_N z) with Some b => b | None => x00 end.

Definition Z_of_byte (b : byte) : Z := Z.of_N (Byte.to_N b).

(** [hashlib.sha256(data).digest()] *)
Definition sha256_digest (data : list byte) : list byte :=
  let padded := pad (map Z_of_byte data) in
  let blocks := chunks (length padded) 64 padded in
  let hs := fold_left compress blocks H0 in
  map byte_of_Z (flat_map (be_bytes 4) hs).

(** [int.from_bytes(bs, byteorder='big')] *)
Definition int_from_bytes_big (bs : list byte) : Z :=
  be_value (map Z_of_byte bs).

End SHA256.
Import SHA256.

(** ** Strings and dictionaries *)

(** The decimal string of an integer [n]: what [str(n)] returns when it
    returns. *)
Definition py_str (n : Z) : string := NilZero.string_of_int (Z.to_int n).

(** The default of [sys.get_int_max_str_digits()]. *)
Definition max_str_digits : Z := 4300.

(** The least magnitude with more than [max_str_digits] decimal digits. *)
Definition str_limit : Z := 10 ^ max_str_digits.

(** The call [str(n)]: an integer of more than 4300 digits raises
    [ValueError]. *)
Definition py_str_checked (n : Z) : result string :=
  if str_limit <=? Z.abs n then Raise ValueError else Ok (py_str n).

(** [s.encode()] on the ASCII strings [str] produces. *)
Definition py_encode (s : string) : list byte := list_byte_of_string s.

(** [d[k]] on a dictionary with string keys. *)
Definition py_getitem (d : gmap string Z) (k : string) : result Z :=
  match d !! k with
  | Some v => Ok v
  | None => Raise KeyError
  end.

(** ** Setup cells: [generate_parameters] and [keygen]

    The three notebooks share these cells; only the bounds of the draw of [p]
    differ ([20..100] in [sigma_2] and [schnorr_2], [1000..10000] in
    [schnorr_3]). *)

Module Setup.

(** [all(n % i != 0 for i in range(2, int(n**0.5) + 1))] *)
Definition trial_division (n : Z) : result bool :=
  k ← py_isqrt n;
  py_all (λ i, r ← py_mod n i; mret (negb (r =? 0))) (py_range 2 (k + 1)).

(** The innermost loop, over the candidates [gs] for [g]. *)
Fixpoint search_g (p q : Z) (gs : list Z) : result (option Z) :=
  match gs with
  | [] => Ok None
  | g :: gs' =>
      a ← py_pow g q p;
      ok ← (if a =? 1
            then e ← py_floordiv (p - 1) q;
                 b ← py_pow g e p;
                 mret (negb (b =? 1))
            else mret false);
      if ok : bool then mret (Some g) else search_g p q gs'
  end.

(** The loop over the candidates [qs] for [q]. *)
Fixpoint search_q (p : Z) (qs : list Z) : result (option (Z * Z)) :=
  match qs with
  | [] => Ok None
  | q :: qs' =>
      r ← py_mod (p - 1) q;
      ok ← (if r =? 0 then trial_division q else mret false);
      if ok : bool then
        found ← search_g p q (py_range 2 p);
        match found with
        | Some g => mret (Some (q, g))
        | None => search_q p qs'
        end
      else search_q p qs'
  end.

(** [generate_parameters], drawing [p] from [lo..hi].  [fuel] bounds the
    iterations of [while True]; the answer [None] says the loop is still
    running after that many draws. *)
Fixpoint generate_parameters_in (lo hi : Z) (fuel : nat)
  : M (option (Z * Z * Z)) :=
  match fuel with
  | O => mret None
  | S k =>
      p ← randint lo hi;
      pr ← lift (trial_division p);
      if pr : bool then
        found ← lift (search_q p (py_range 2 p));
        match found with
        | Some (q, g) => mret (Some (p, q, g))
        | None => generate_parameters_in lo hi k
        end
      else generate_parameters_in lo hi k
  end.

Definition keygen (p q g : Z) : M (Z * Z) :=
  x ← randint 1 (q - 1);
  y ← lift (py_pow g x p);
  mret (x, y).

End Setup.

(** ** [sigma_2.ipynb] *)

Module Sigma.

Definition generate_parameters := Setup.generate_parameters_in 20 100.
Definition keygen := Setup.keygen.

Definition sigma_commit (p q g : Z) : M (Z * Z) :=
  r ← randint 0 (q - 1);
  t ← lift (py_pow g r p);
  mret (r, t).

Definition sigma_response (q x r c : Z) : result Z :=
  s ← py_mod (r + c * x) q;
  mret s.

Definition sigma_verify (p g y t c s : Z) : result bool :=
  lhs ← py_pow g s p;
  yc ← py_pow y c p;
  rhs ← py_mod (t * yc) p;
  mret (lhs =? rhs).

End Sigma.

(** ** [schnorr_2.ipynb] *)

Module Schnorr.

Definition generate_parameters := Setup.generate_parameters_in 20 100.
Definition keygen := Setup.keygen.

Definition schnorr_prove (p q g x : Z) : M (Z * Z) :=
  r ← randint 0 (q - 1);
  t ← lift (py_pow g r p);
  mret (r, t).

Definition schnorr_response (p q g x r c : Z) : result Z :=
  s ← py_mod (r + c * x) q;
  mret s.

Definition schnorr_verify (p q g y t c s : Z) : result bool :=
  lhs ← py_pow g s p;
  yc ← py_pow y c p;
  rhs ← py_mod (t * yc) p;
  mret (lhs =? rhs).

End Schnorr.

(** ** [schnorr_3.ipynb] *)

Module Schnorr3.

Definition generate_parameters := Setup.generate_parameters_in 1000 10000.
Definition keygen := Setup.keygen.

(** [int.from_bytes(hashlib.sha256(data).digest(), byteorder='big') % q] *)
Definition hash_mod (data : list byte) (q : Z) : result Z :=
  py_mod (int_from_bytes_big (sha256_digest data)) q.

(** The bytes hashed into the challenge when both conversions to a
    string succeed. *)
Definition challenge_input (a b : Z) : list byte :=
  py_encode (String.append (py_str a) (py_str b)).

(** [(str(a) + str(b)).encode()]: [str(a)] first, then [str(b)]. *)
Definition challenge_bytes (a b : Z) : result (list byte) :=
  sa ← py_str_checked a;
  sb ← py_str_checked b;
  mret (py_encode (String.append sa sb)).


(** The cell "Applying Schnorr in Digital Forensics": the proof carries no
    hash and the verifier compares none. *)
Module Forensics.

Definition schnorr_prove (file_content : list byte) (p q g x : Z)
  : M (gmap string Z) :=
  h ← lift (hash_mod file_content q);
  r ← randint 0 (q - 1);
  t ← lift (py_pow g r p);
  hashed ← lift (challenge_bytes t h);
  c ← lift (hash_mod hashed q);
  s ← lift (py_mod (r + c * x) q);
  y ← lift (py_pow g x p);
  mret (<["commitment" := t]> (<["challenge" := c]> (<["response" := s]>
         (<["public_value" := y]> (∅ : gmap string Z))))).

Definition schnorr_verify (proof : gmap string Z) (file_content : list byte)
    (p q g : Z) : result bool :=
  h ← hash_mod file_content q;
  t ← py_getitem proof "commitment";
  c ← py_getitem proof "challenge";
  s ← py_getitem proof "response";
  y ← py_getitem proof "public_value";
  lhs ← py_pow g s p;
  yc ← py_pow y c p;
  rhs ← py_mod (t * yc) p;
  mret (lhs =? rhs).

End Forensics.

(** The cell "Verifying a File": the proof stores the content hash and the
    verifier compares it first. *)
Module Tamper.

Definition schnorr_prove (file_content : list byte) (p q g x : Z)
  : M (gmap string Z) :=
  h ← lift (hash_mod file_content q);
  r ← randint 0 (q - 1);
  t ← lift (py_pow g r p);
  hashed ← lift (challenge_bytes t h);
  c ← lift (hash_mod hashed q);
  s ← lift (py_mod (r + c * x) q);
  y ← lift (py_pow g x p);
  mret (<["commitment" := t]> (<["challenge" := c]> (<["response" := s]>
         (<["public_value" := y]> (<["hash" := h]> (∅ : gmap string Z)))))).

Definition schnorr_verify (proof : gmap string Z) (file_content : list byte)
    (p q g : Z) : result bool :=
  h ← hash_mod file_content q;
  stored ← py_getitem proof "hash";
  if negb (h =? stored) then mret false
  else
    t ← py_getitem proof "commitment";
    c ← py_getitem proof "challenge";
    s ← py_getitem proof "response";
    y ← py_getitem proof "public_value";
    lhs ← py_pow g s p;
    yc ← py_pow y c p;
    rhs ← py_mod (t * yc) p;
    mret (lhs =? rhs).

End Tamper.

End Schnorr3.

(** ** The worked-example cells

    The cells below the function definitions run on the notebook's globals
    and print what they compute; here each is a function of those globals
    that returns the printed value.  A cell that starts from
    [generate_parameters()] answers [None] while that loop is still
    running. *)

Module SigmaCells.

(** [p, q, g = generate_parameters()] then [x, y = keygen(p, q, g)]. *)
Definition setup (fuel : nat) : M (option (Z * Z * Z * Z * Z)) :=
  found ← Sigma.generate_parameters fuel;
  match found with
  | None => mret None
  | Some (p, q, g) =>
      '(x, y) ← Sigma.keygen p q g;
      mret (Some (p, q, g, x, y))
  end.

(** "Example 1: Single Protocol Execution"; the value is [result]. *)
Definition example_1 (p q g x y : Z) : M bool :=
  '(r, t) ← Sigma.sigma_commit p q g;
  c ← randint 0 (q - 1);
  s ← lift (Sigma.sigma_response q x r c);
  lift (Sigma.sigma_verify p g y t c s).

(** "Example 2: Multiple Protocol Executions": the body of
    [for i in range(n)], the results in the order printed. *)
Fixpoint example_2_loop (n : nat) (p q g x y : Z) : M (list bool) :=
  match n with
  | O => mret []
  | S k =>
      '(r, t) ← Sigma.sigma_commit p q g;
      c ← randint 0 (q - 1);
      s ← lift (Sigma.sigma_response q x r c);
      result ← lift (Sigma.sigma_verify p g y t c s);
      rest ← example_2_loop k p q g x y;
      mret (result :: rest)
  end.

Definition example_2 : Z → Z → Z → Z → Z → M (list bool) := example_2_loop 3.

(** "Example 3: Simulating a Cheating Prover"; the value is [result]. *)
Definition example_3 (p q g y : Z) : M bool :=
  fake_r ← randint 0 (q - 1);
  fake_t ← lift (py_pow g fake_r p);
  c ← randint 0 (q - 1);
  fake_s ← randint 0 (q - 1);
  lift (Sigma.sigma_verify p g y fake_t c fake_s).

End SigmaCells.

Module SchnorrCells.

Definition setup (fuel : nat) : M (option (Z * Z * Z * Z * Z)) :=
  found ← Schnorr.generate_parameters fuel;
  match found with
  | None => mret None
  | Some (p, q, g) =>
      '(x, y) ← Schnorr.keygen p q g;
      mret (Some (p, q, g, x, y))
  end.

Definition example_1 (p q g x y : Z) : M bool :=
  '(r, t) ← Schnorr.schnorr_prove p q g x;
  c ← randint 0 (q - 1);
  s ← lift (Schnorr.schnorr_response p q g x r c);
  lift (Schnorr.schnorr_verify p q g y t c s).

Fixpoint example_2_loop (n : nat) (p q g x y : Z) : M (list bool) :=
  match n with
  | O => mret []
  | S k =>
      '(r, t) ← Schnorr.schnorr_prove p q g x;
      c ← randint 0 (q - 1);
      s ← lift (Schnorr.schnorr_response p q g x r c);
      result ← lift (Schnorr.schnorr_verify p q g y t c s);
      rest ← example_2_loop k p q g x y;
      mret (result :: rest)
  end.

Definition example_2 : Z → Z → Z → Z → Z → M (list bool) := example_2_loop 3.

Definition example_3 (p q g y : Z) : M bool :=
  fake_r ← randint 0 (q - 1);
  fake_t ← lift (py_pow g fake_r p);
  c ← randint 0 (q - 1);
  fake_s ← randint 0 (q - 1);
  lift (Schnorr.schnorr_verify p q g y fake_t c fake_s).

End SchnorrCells.

Module Schnorr3Cells.


(** "Example usage" of the cell without a stored hash; the values are
    [proof] and [is_valid]. *)
Definition forensics_cell (fuel : nat) (file_content : list byte)
  : M (option (gmap string Z * bool)) :=
  found ← Schnorr3.generate_parameters fuel;
  match found with
  | None => mret None
  | Some (p, q, g) =>
      '(x, y) ← Schnorr3.keygen p q g;
      proof ← Schnorr3.Forensics.schnorr_prove file_content p q g x;
      is_valid ← lift (Schnorr3.Forensics.schnorr_verify proof file_content
                         p q g);
      mret (Some (proof, is_valid))
  end.

(** Steps 2 to 5 of "Verifying a File"; [original_content] and
    [tampered_content] are the bytes the cell reads back from the file
    before and after it rewrites it; the values are [valid_before] and
    [valid_after]. *)
Definition tamper_cell (fuel : nat)
    (original_content tampered_content : list byte)
  : M (option (bool * bool)) :=
  found ← Schnorr3.generate_parameters fuel;
  match found with
  | None => mret None
  | Some (p, q, g) =>
      '(x, _) ← Schnorr3.keygen p q g;
      proof ← Schnorr3.Tamper.schnorr_prove original_content p q g x;
      valid_before ← lift (Schnorr3.Tamper.schnorr_verify proof
                             original_content p q g);
      valid_after ← lift (Schnorr3.Tamper.schnorr_verify proof
                            tampered_content p q g);
      mret (Some (valid_before, valid_after))
  end.

End Schnorr3Cells.

(** ** Vocabulary of the statements *)

(** [a ≡ b (mod p)] *)
Definition cong (p a b : Z) : Prop := a mod p = b mod p.

(** [g] has multiplicative order exactly [q] modulo [p]. *)
Definition order_exactly (p g q : Z) : Prop :=
  0 < q ∧ cong p (g ^ q) 1 ∧ ∀ k, 0 < k < q → ¬ cong p (g ^ k) 1.

(** The invariant of a parameter triple. *)
Record valid_params (p q g : Z) : Prop := {
  vp_prime_p : Z.prime p;
  vp_prime_q : Z.prime q;
  vp_divides : (q | p - 1);
  vp_order : order_exactly p g q
}.

(** An entropy tape that always reads [e]. *)
Definition const_rng (e : Z) : rng := {| tape := λ _, e; pos := 0 |}.

(** [int.from_bytes(hashlib.sha256(data).digest(), byteorder='big')] *)
Definition hash_int (data : list byte) : Z :=
  int_from_bytes_big (sha256_digest data).

(** The proof dictionary of the hash-storing cell. *)
Definition proof_dict (t c s y h : Z) : gmap string Z :=
  <["commitment" := t]> (<["challenge" := c]> (<["response" := s]>
    (<["public_value" := y]> (<["hash" := h]> (∅ : gmap string Z))))).

(** A proof dictionary built from public data only: the commitment is
    [g^s * (y^c)^(-1) mod p]. *)
Definition forged_proof (p g y h c s : Z) : gmap string Z :=
  proof_dict ((g ^ s * Z.invmod (y ^ c) p) mod p) c s y h.

(** What one iteration of [while True] finds for the value [p] it drew:
    the test of [p] by trial division, then the loop over [q]. *)
Definition search_for (p : Z) : result (option (Z * Z)) :=
  pr ← Setup.trial_division p;
  if pr : bool then Setup.search_q p (py_range 2 p) else mret None.

(** An entropy tape that reads the words of [l], then [d] for ever. *)
Definition list_rng (l : list Z) (d : Z) : rng :=
  {| tape := λ n, nth n l d; pos := 0 |}.

(** The value [random.randint(a, b)] draws in state [st]. *)
Definition draw (a b : Z) (st : rng) : Z :=
  a + tape st (pos st) mod (b - a + 1).

(** The test of the innermost loop of [generate_parameters]:
    [pow(g, q, p) == 1 and pow(g, (p-1)//q, p) != 1]. *)
Definition passes_tests (p q g : Z) : Prop :=
  g ^ q mod p = 1 ∧ g ^ ((p - 1) / q) mod p ≠ 1.

(** [(s1 - s2) * (c1 - c2)^(-1) mod q], the secret computed from two
    transcripts. *)
Definition recover_secret (q c1 s1 c2 s2 : Z) : Z :=
  ((s1 - s2) * Z.invmod (c1 - c2) q) mod q.

(** ** Checks against known values *)

Example sha256_abc :
  int_from_bytes_big (sha256_digest (py_encode "abc")) =
  0xba7816bf8f01cfea414140de5dae2223b00361a396177a9cb410ff61f20015ad.
Proof. vm_compute. reflexivity. Qed.

Example sha256_empty :
  int_from_bytes_big (sha256_digest []) =
  0xe3b0c44298fc1c149afbf4c8996fb92427ae41e4649b934ca495991b7852b855.
Proof. vm_compute. reflexivity. Qed.

(** A message of more than one block. *)
Example sha256_two_blocks :
  int_from_bytes_big (sha256_digest (py_encode
    "This is confidential forensic evidence. Altered. This is confidential forensic evidence. Altered.")) =
  0x75951cc6c750bb416b5d257d03bf1f7a3e3ff1e30d0c9a09934adbe95da2c07e.
Proof. vm_compute. reflexivity. Qed.

(** The run printed by [schnorr_2.ipynb]. *)
Example schnorr_2_printed_run :
  Setup.generate_parameters_in 20 100 1 (const_rng 69)
    = Ok (Some (89, 11, 2), advance (const_rng 69)) ∧
  Setup.keygen 89 11 2 (const_rng 8) = Ok ((9, 67), advance (const_rng 8)) ∧
  Schnorr.schnorr_response 89 11 2 9 0 2 = Ok 7 ∧
  Schnorr.schnorr_verify 89 11 2 67 1 2 7 = Ok true ∧
  Schnorr.schnorr_verify 89 11 2 67 78 3 4 = Ok false.
Proof. repeat split; vm_compute; reflexivity. Qed.

(** The parameters printed by [sigma_2.ipynb]. *)
Example sigma_2_printed_run :
  Setup.generate_parameters_in 20 100 1 (const_rng 59)
    = Ok (Some (79, 2, 78), advance (const_rng 59)) ∧
  Sigma.sigma_verify 79 78 78 1 1 1 = Ok true ∧
  Sigma.sigma_verify 79 78 78 78 0 0 = Ok false.
Proof. repeat split; vm_compute; reflexivity. Qed.

(** ** Runtime lemmas *)

Lemma py_pow_nonneg a e m :
  m ≠ 0 → 0 ≤ e → py_pow a e m = Ok (a ^ e mod m).
Proof.
  intros Hm He. unfold py_pow.
  destruct (Z.eqb_spec m 0) as [|_]; [contradiction|].
  destruct (Z.leb_spec 0 e); [|lia].
  now rewrite Zpow_mod_correct.
Qed.

Lemma py_mod_nonzero a b : b ≠ 0 → py_mod a b = Ok (a mod b).
Proof.
  intros Hb. unfold py_mod. now destruct (Z.eqb_spec b 0).
Qed.

Lemma py_floordiv_nonzero a b : b ≠ 0 → py_floordiv a b = Ok (a / b).
Proof.
  intros Hb. unfold py_floordiv. now destruct (Z.eqb_spec b 0).
Qed.

Lemma sigma_schnorr_verify_same p q g y t c s :
  Schnorr.schnorr_verify p q g y t c s = Sigma.sigma_verify p g y t c s.
Proof. reflexivity. Qed.

(** The check of both verifiers, on a non-zero modulus and exponents that
    are not negative. *)
Lemma sigma_verify_eval p g y t c s :
  p ≠ 0 → 0 ≤ c → 0 ≤ s →
  Sigma.sigma_verify p g y t c s
  = Ok (g ^ s mod p =? (t * (y ^ c mod p)) mod p).
Proof.
  intros Hp Hc Hs. unfold Sigma.sigma_verify.
  rewrite !py_pow_nonneg by assumption. cbn.
  rewrite py_mod_nonzero by assumption. reflexivity.
Qed.

(** ** Modular arithmetic in the subgroup *)

Lemma one_mod_p p : 1 < p → 1 mod p = 1.
Proof. intros. apply Z.mod_small. lia. Qed.

Section Subgroup.

Variables p q g : Z.
Hypothesis Hp : 1 < p.
Hypothesis Hq : 0 < q.
Hypothesis Hgq : cong p (g ^ q) 1.

Lemma pow_mul_order k : 0 ≤ k → (g ^ (q * k)) mod p = 1.
Proof.
  intros Hk. rewrite Z.pow_mul_r by lia.
  rewrite Zpower_mod by lia. red in Hgq. rewrite Hgq, one_mod_p by lia.
  rewrite Z.pow_1_l by lia. now apply one_mod_p.
Qed.

(** Exponents of [g] only matter modulo [q]. *)
Lemma pow_exponent_mod e : 0 ≤ e → g ^ (e mod q) mod p = g ^ e mod p.
Proof.
  intros He.
  rewrite (Z.div_mod e q) at 2 by lia.
  assert (0 ≤ e / q) by (apply Z.div_pos; lia).
  assert (0 ≤ e mod q) by (apply Z.mod_pos_bound; lia).
  rewrite Z.pow_add_r by lia.
  rewrite Z.mul_mod by lia. rewrite pow_mul_order by lia.
  rewrite Z.mul_1_l. now rewrite Z.mod_mod by lia.
Qed.

(** The right-hand side of the check on an honest transcript. *)
Lemma honest_rhs x r c :
  0 ≤ x → 0 ≤ r → 0 ≤ c →
  ((g ^ r mod p) * ((g ^ x mod p) ^ c mod p)) mod p = g ^ (r + c * x) mod p.
Proof using Hp.
  clear Hq Hgq. intros Hx Hr Hc.
  rewrite <- Zpower_mod by lia.
  rewrite <- Z.mul_mod by lia.
  rewrite <- Z.pow_mul_r by lia.
  rewrite <- Z.pow_add_r by lia.
  f_equal. f_equal. lia.
Qed.

Lemma honest_transcript_accepted x r c :
  0 ≤ x → 0 ≤ r → 0 ≤ c →
  Sigma.sigma_verify p g (g ^ x mod p) (g ^ r mod p) c ((r + c * x) mod q)
  = Ok true.
Proof.
  intros Hx Hr Hc.
  assert (0 ≤ (r + c * x) mod q) by (apply Z.mod_pos_bound; lia).
  rewrite sigma_verify_eval by lia.
  rewrite honest_rhs by assumption.
  rewrite pow_exponent_mod by nia.
  now rewrite Z.eqb_refl.
Qed.

End Subgroup.

(** ** Parameter search *)

Lemma in_py_range i a b : In i (py_range a b) ↔ a ≤ i < b.
Proof.
  unfold py_range. rewrite in_map_iff. split.
  - intros (k & <- & Hk). apply in_seq in Hk. lia.
  - intros Hi. exists (Z.to_nat (i - a)). split; [lia|].
    apply in_seq. lia.
Qed.

Lemma py_all_true f l :
  py_all f l = Ok true → ∀ i, In i l → f i = Ok true.
Proof.
  induction l as [|j l IH]; cbn; intros Hall i Hi; [contradiction|].
  destruct (f j) as [[|]|e] eqn:Hj; cbn in Hall; try discriminate.
  destruct Hi as [<-|Hi]; auto.
Qed.

(** Trial division up to the integer square root is a primality test. *)
Lemma trial_division_prime n :
  2 ≤ n → Setup.trial_division n = Ok true → Z.prime n.
Proof.
  intros Hn Htd. unfold Setup.trial_division, py_isqrt in Htd.
  destruct (Z.ltb_spec n 0); [lia|]. cbn in Htd.
  pose proof (py_all_true _ _ Htd) as Hall. clear Htd.
  assert (Hno : ∀ i, 2 ≤ i ≤ Z.sqrt n → n mod i ≠ 0).
  { intros i Hi Hz. specialize (Hall i).
    rewrite in_py_range in Hall. specialize (Hall ltac:(lia)).
    rewrite py_mod_nonzero in Hall by lia. cbn in Hall.
    rewrite Hz in Hall. discriminate. }
  split; [lia|].
  intros m Hm [k Hk].
  pose proof (Z.sqrt_spec n ltac:(lia)) as Hs. cbn zeta in Hs.
  assert (2 ≤ k) by nia.
  destruct (Z.le_gt_cases m (Z.sqrt n)) as [Hle|Hgt].
  - apply (Hno m); [lia|]. subst n. apply Z.mod_mul. lia.
  - assert (k ≤ Z.sqrt n) by nia.
    apply (Hno k); [lia|]. subst n. rewrite Z.mul_comm. apply Z.mod_mul. lia.
Qed.

(** An element other than 1 whose [q]-th power is 1, [q] prime, has order
    exactly [q]. *)
Lemma prime_power_order p q g :
  1 < p → Z.prime q → 2 ≤ g < p → cong p (g ^ q) 1 → order_exactly p g q.
Proof.
  intros Hp Hq Hg Hgq.
  pose proof (Z.prime_ge_2 _ Hq) as Hq2.
  split; [lia|]. split; [assumption|].
  intros k Hk Hgk.
  pose proof (Z.coprime_prime_small q k Hq ltac:(lia)) as Hco.
  symmetry in Hco.
  destruct (Z.Bezout_coprime _ _ Hco) as (u & v & Huv).
  set (u' := u mod q).
  assert (Hu' : 0 ≤ u' < q) by (apply Z.mod_pos_bound; lia).
  assert (Hmod : (u' * k) mod q = 1).
  { unfold u'. rewrite Z.mul_mod_idemp_l by lia.
    replace (u * k) with (1 + (- v) * q) by lia.
    rewrite Z.mod_add by lia. apply Z.mod_small. lia. }
  pose proof (Z.div_mod (u' * k) q ltac:(lia)) as Hdm. rewrite Hmod in Hdm.
  assert (Hw : 0 ≤ (u' * k) / q) by (apply Z.div_pos; nia).
  assert (H1 : g ^ (u' * k) mod p = 1).
  { rewrite Z.mul_comm, Z.pow_mul_r by lia.
    rewrite Zpower_mod by lia. red in Hgk. rewrite Hgk.
    rewrite one_mod_p by lia. rewrite Z.pow_1_l by lia.
    apply one_mod_p. lia. }
  rewrite Hdm in H1.
  rewrite Z.pow_add_r, Z.pow_1_r in H1 by lia.
  rewrite Z.mul_mod in H1 by lia.
  rewrite (pow_mul_order p q g) in H1 by (assumption || lia).
  rewrite Z.mul_1_l, Z.mod_mod in H1 by lia.
  rewrite Z.mod_small in H1 by lia. lia.
Qed.

(** What the inner loop guarantees about the [g] it returns. *)
Lemma search_g_sound p q gs g :
  1 < p → 0 < q →
  Setup.search_g p q gs = Ok (Some g) →
  In g gs ∧ g ^ q mod p = 1 ∧ g ^ ((p - 1) / q) mod p ≠ 1.
Proof.
  intros Hp Hq.
  assert (Hdiv : 0 ≤ (p - 1) / q) by (apply Z.div_pos; lia).
  induction gs as [|g0 gs IH]; cbn; intros Hs; [discriminate|].
  rewrite py_pow_nonneg in Hs by lia. cbn in Hs.
  destruct (Z.eqb_spec (g0 ^ q mod p) 1) as [H1|H1]; cbn in Hs.
  - rewrite py_floordiv_nonzero in Hs by lia. cbn in Hs.
    rewrite py_pow_nonneg in Hs by lia. cbn in Hs.
    destruct (Z.eqb_spec (g0 ^ ((p - 1) / q) mod p) 1) as [H2|H2];
      cbn in Hs.
    + destruct (IH Hs) as (? & ? & ?). auto.
    + injection Hs as <-. auto.
  - destruct (IH Hs) as (? & ? & ?). auto.
Qed.

(** What the loop over [q] guarantees about the pair it returns. *)
Lemma search_q_sound p qs q g :
  (∀ q', In q' qs → 2 ≤ q' < p) →
  Setup.search_q p qs = Ok (Some (q, g)) →
  Z.prime q ∧ (q | p - 1) ∧ 2 ≤ g < p ∧
  g ^ q mod p = 1 ∧ g ^ ((p - 1) / q) mod p ≠ 1.
Proof.
  induction qs as [|q0 qs IH]; cbn; intros Hqs Hs; [discriminate|].
  assert (Hq0 : 2 ≤ q0 < p) by (apply Hqs; auto).
  assert (Hrest : ∀ q', In q' qs → 2 ≤ q' < p) by (intros; apply Hqs; auto).
  rewrite py_mod_nonzero in Hs by lia. cbn in Hs.
  destruct (Z.eqb_spec ((p - 1) mod q0) 0) as [Hd|Hd]; cbn in Hs;
    [|now apply IH].
  destruct (Setup.trial_division q0) as [[|]|e] eqn:Htd; cbn in Hs;
    try discriminate; [|now apply IH].
  destruct (Setup.search_g p q0 (py_range 2 p)) as [[g0|]|e] eqn:Hg;
    cbn in Hs; try discriminate; [|now apply IH].
  injection Hs as <- <-.
  apply search_g_sound in Hg; [|lia..].
  destruct Hg as (Hin & H1 & H2). apply in_py_range in Hin.
  repeat split; try assumption; try lia.
  - apply trial_division_prime; [lia|assumption].
  - apply Z.mod_divide; [lia|assumption].
Qed.

(** Every triple the search returns satisfies the invariant, and the loop
    itself raises nothing. *)
Lemma generate_parameters_in_sound lo hi fuel st p q g st' :
  Setup.generate_parameters_in lo hi fuel st = Ok (Some (p, q, g), st') →
  Z.prime p ∧ Z.prime q ∧ (q | p - 1) ∧ 2 ≤ g < p ∧
  g ^ q mod p = 1 ∧ g ^ ((p - 1) / q) mod p ≠ 1.
Proof.
  revert st. induction fuel as [|fuel IH]; intros st; cbn; [discriminate|].
  unfold mbind, M_bind, randint.
  destruct (Z.ltb_spec hi lo); [discriminate|].
  set (p0 := lo + tape st (pos st) mod (hi - lo + 1)).
  unfold lift.
  destruct (Setup.trial_division p0) as [[|]|e] eqn:Htd;
    try discriminate; [|apply IH].
  destruct (Setup.search_q p0 (py_range 2 p0)) as [[[q0 g0]|]|e] eqn:Hq;
    try discriminate; [|apply IH].
  cbn. intros [= <- <- <- <-].
  apply search_q_sound in Hq; [|intros ? ?%in_py_range; lia].
  destruct Hq as (Hpq & Hdiv & Hg & H1 & H2).
  split; [|auto].
  apply trial_division_prime; [lia|assumption].
Qed.

Lemma valid_params_intro p q g :
  Z.prime p → Z.prime q → (q | p - 1) → 2 ≤ g < p → g ^ q mod p = 1 →
  valid_params p q g.
Proof.
  intros Hp Hq Hdiv Hg H1.
  pose proof (Z.prime_ge_2 _ Hp).
  assert (cong p (g ^ q) 1) by (red; rewrite H1; symmetry; apply one_mod_p; lia).
  constructor; auto. apply prime_power_order; auto; lia.
Qed.

Lemma generate_parameters_in_valid lo hi fuel st p q g st' :
  Setup.generate_parameters_in lo hi fuel st = Ok (Some (p, q, g), st') →
  valid_params p q g.
Proof.
  intros H. apply generate_parameters_in_sound in H.
  destruct H as (? & ? & ? & ? & ? & ?). now apply valid_params_intro.
Qed.

(** The honest prover's first move: the nonce lies in [0..q-1], the
    commitment is [pow(g, r, p)], and one entropy word is read. *)
Lemma sigma_commit_spec p q g st :
  1 ≤ q → p ≠ 0 →
  ∃ r, 0 ≤ r ≤ q - 1 ∧
       Sigma.sigma_commit p q g st = Ok ((r, g ^ r mod p), advance st) ∧
       Schnorr.schnorr_prove p q g 0 st = Ok ((r, g ^ r mod p), advance st).
Proof.
  intros Hq Hp.
  exists (0 + tape st (pos st) mod (q - 1 - 0 + 1)).
  assert (Hr : 0 ≤ tape st (pos st) mod (q - 1 - 0 + 1) < q - 1 - 0 + 1)
    by (apply Z.mod_pos_bound; lia).
  split; [lia|].
  unfold Sigma.sigma_commit, Schnorr.schnorr_prove, mbind, M_bind, randint.
  destruct (Z.ltb_spec (q - 1) 0); [lia|].
  rewrite py_pow_nonneg by lia. cbn. auto.
Qed.

(** ** The claims *)

(** C1.  Completeness of the interactive protocol: on a parameter triple
    with [p] prime, [q] a prime dividing [p - 1] and [g] of order exactly
    [q], for a secret [x] of [1..q-1] with public key [y = pow(g, x, p)], a
    nonce [r] and a challenge [c] of [0..q-1], the commitment
    [t = pow(g, r, p)] and the response [s = (r + c*x) % q] are computed
    without error and both [sigma_verify] and [schnorr_verify] return
    [True] on the transcript. *)
Theorem completeness p q g x y r c :
  valid_params p q g →
  1 ≤ x ≤ q - 1 →
  py_pow g x p = Ok y →
  0 ≤ r ≤ q - 1 →
  0 ≤ c ≤ q - 1 →
  ∃ t s,
    py_pow g r p = Ok t ∧
    Sigma.sigma_response q x r c = Ok s ∧
    Schnorr.schnorr_response p q g x r c = Ok s ∧
    s = (r + c * x) mod q ∧
    Sigma.sigma_verify p g y t c s = Ok true ∧
    Schnorr.schnorr_verify p q g y t c s = Ok true.
Proof.
  intros [Hp Hq _ (Hq0 & Hgq & _)] Hx Hy Hr Hc.
  apply Z.prime_ge_2 in Hp.
  rewrite py_pow_nonneg in Hy by lia. injection Hy as <-.
  exists (g ^ r mod p), ((r + c * x) mod q).
  rewrite py_pow_nonneg by lia.
  unfold Sigma.sigma_response, Schnorr.schnorr_response.
  rewrite py_mod_nonzero by lia. cbn.
  rewrite sigma_schnorr_verify_same.
  rewrite (honest_transcript_accepted p q g) by (assumption || lia).
  repeat split; reflexivity.
Qed.

Lemma completeness_witness :
  ∃ t s,
    py_pow 2 0 89 = Ok t ∧
    Sigma.sigma_response 11 9 0 2 = Ok s ∧
    Schnorr.schnorr_response 89 11 2 9 0 2 = Ok s ∧
    s = (0 + 2 * 9) mod 11 ∧
    Sigma.sigma_verify 89 2 67 t 2 s = Ok true ∧
    Schnorr.schnorr_verify 89 11 2 67 t 2 s = Ok true.
Proof.
  apply (completeness 89 11 2 9 67 0 2).
  - apply (generate_parameters_in_valid 20 100 1 (const_rng 69) 89 11 2
             (advance (const_rng 69))).
    vm_compute. reflexivity.
  - lia.
  - reflexivity.
  - lia.
  - lia.
Defined.

(** C2.  The verification predicate is the exact modular identity: for a
    modulus [p >= 2] and non-negative [g, y, t, c, s], [sigma_verify] and
    [schnorr_verify] return a boolean, and it is [True] if and only if
    [g^s ≡ t * y^c (mod p)]. *)
Theorem verify_iff_identity p q g y t c s :
  2 ≤ p → 0 ≤ g → 0 ≤ y → 0 ≤ t → 0 ≤ c → 0 ≤ s →
  ∃ b : bool,
    Sigma.sigma_verify p g y t c s = Ok b ∧
    Schnorr.schnorr_verify p q g y t c s = Ok b ∧
    (b = true ↔ cong p (g ^ s) (t * y ^ c)).
Proof.
  intros Hp _ _ _ Hc Hs.
  rewrite sigma_schnorr_verify_same, sigma_verify_eval by lia.
  eexists. split; [reflexivity|]. split; [reflexivity|].
  unfold cong. rewrite Z.mul_mod_idemp_r by lia. apply Z.eqb_eq.
Qed.

Lemma verify_iff_identity_witness :
  ∃ b : bool,
    Sigma.sigma_verify 89 2 67 78 3 4 = Ok b ∧
    Schnorr.schnorr_verify 89 11 2 67 78 3 4 = Ok b ∧
    (b = true ↔ cong 89 (2 ^ 4) (78 * 67 ^ 3)).
Proof.
  apply (verify_iff_identity 89 11 2 67 78 3 4); lia.
Defined.

(** C4.  Postcondition of [generate_parameters]: every triple [(p, q, g)] it
    returns, whatever the bounds of the draw and the entropy read, has [p]
    prime, [q] prime, [q] dividing [p - 1], [g] in [2..p-1],
    [g^q ≡ 1 (mod p)] and [g^((p-1)/q) ≢ 1 (mod p)]; hence [g] has order
    exactly [q] modulo [p]. *)
Theorem generate_parameters_postcondition lo hi fuel st p q g st' :
  Setup.generate_parameters_in lo hi fuel st = Ok (Some (p, q, g), st') →
  Z.prime p ∧ Z.prime q ∧ (q | p - 1) ∧ 2 ≤ g < p ∧
  cong p (g ^ q) 1 ∧ ¬ cong p (g ^ ((p - 1) / q)) 1 ∧
  order_exactly p g q.
Proof.
  intros H. pose proof (generate_parameters_in_valid _ _ _ _ _ _ _ _ H) as Hv.
  apply generate_parameters_in_sound in H.
  destruct H as (Hp & Hq & Hdiv & Hg & H1 & H2).
  pose proof (Z.prime_ge_2 _ Hp).
  assert (H1' : 1 mod p = 1) by (apply one_mod_p; lia).
  split; [assumption|]. split; [assumption|]. split; [assumption|].
  split; [assumption|]. unfold cong. rewrite H1'.
  split; [assumption|]. split; [assumption|]. apply Hv.
Qed.

Lemma generate_parameters_postcondition_witness :
  Setup.generate_parameters_in 1000 10000 1 (const_rng 19)
    = Ok (Some (1019, 2, 1018), advance (const_rng 19)) ∧
  Z.prime 1019 ∧ Z.prime 2 ∧ (2 | 1019 - 1) ∧ 2 ≤ 1018 < 1019 ∧
  cong 1019 (1018 ^ 2) 1 ∧ ¬ cong 1019 (1018 ^ ((1019 - 1) / 2)) 1 ∧
  order_exactly 1019 1018 2.
Proof.
  assert (H : Setup.generate_parameters_in 1000 10000 1 (const_rng 19)
              = Ok (Some (1019, 2, 1018), advance (const_rng 19)))
    by (vm_compute; reflexivity).
  split; [exact H|].
  exact (generate_parameters_postcondition 1000 10000 1 (const_rng 19)
           1019 2 1018 (advance (const_rng 19)) H).
Defined.

(** C8.  The verifier of the cell without a stored hash does not depend on
    its [file_content] argument: on any proof and parameters, two contents
    give the same outcome (the same boolean or the same exception), since
    the recomputed hash [h] is never used.  This variant cannot detect a
    change of the content. *)
Theorem forensics_verify_ignores_content
    (proof : gmap string Z) (C1 C2 : list byte) (p q g : Z) :
  Schnorr3.Forensics.schnorr_verify proof C1 p q g
  = Schnorr3.Forensics.schnorr_verify proof C2 p q g.
Proof.
  unfold Schnorr3.Forensics.schnorr_verify, Schnorr3.hash_mod, py_mod.
  destruct (q =? 0); reflexivity.
Qed.

(** C6 (as the code has it).  The verifiers make no range check.  On a
    non-zero modulus and non-negative [c] and [s], whatever [q] is, they
    raise nothing and return a boolean, which is [False] exactly when
    [g^s ≢ t * y^c (mod p)]: a mismatch is reported by the return value, and
    an out-of-range [c] or [s] that satisfies the identity is accepted. *)
Theorem verify_returns_without_range_check p q g y t c s :
  p ≠ 0 → 0 ≤ c → 0 ≤ s →
  ∃ b : bool,
    Sigma.sigma_verify p g y t c s = Ok b ∧
    Schnorr.schnorr_verify p q g y t c s = Ok b ∧
    (b = false ↔ ¬ cong p (g ^ s) (t * y ^ c)).
Proof.
  intros Hp Hc Hs.
  rewrite sigma_schnorr_verify_same, sigma_verify_eval by lia.
  eexists. split; [reflexivity|]. split; [reflexivity|].
  unfold cong. rewrite Z.mul_mod_idemp_r by lia. apply Z.eqb_neq.
Qed.

Lemma verify_returns_without_range_check_witness :
  ∃ b : bool,
    Sigma.sigma_verify 89 2 67 1 2 18 = Ok b ∧
    Schnorr.schnorr_verify 89 11 2 67 1 2 18 = Ok b ∧
    (b = false ↔ ¬ cong 89 (2 ^ 18) (1 * 67 ^ 2)).
Proof.
  apply (verify_returns_without_range_check 89 11 2 67 1 2 18); lia.
Defined.

(** C6, counterexample.  With [q = 11] the response 18 and the challenge
    13 are outside [0..q-1] and the verifiers accept them; a zero modulus
    makes them raise [ValueError], and so does a negative response whose
    base is not invertible. *)
Lemma verify_accepts_out_of_range :
  ¬ (0 ≤ 18 ≤ 11 - 1) ∧ ¬ (0 ≤ 13 ≤ 11 - 1) ∧
  Sigma.sigma_verify 89 2 67 1 2 18 = Ok true ∧
  Schnorr.schnorr_verify 89 11 2 67 1 2 18 = Ok true ∧
  Schnorr.schnorr_verify 89 11 2 67 1 13 7 = Ok true ∧
  Schnorr.schnorr_verify 89 11 2 67 1 2 (-4) = Ok true ∧
  Sigma.sigma_verify 0 2 67 1 2 7 = Raise ValueError ∧
  Schnorr.schnorr_verify 4 2 2 1 1 0 (-1) = Raise ValueError.
Proof.
  repeat split; try lia; vm_compute; reflexivity.
Qed.

(** C10 (as the code has it).  On a non-zero modulus, [keygen] with
    [q >= 2] reads one entropy word and nothing else, returns a secret [x]
    of [1..q-1] and the public key [y = g^x mod p], and every secret of that
    range is drawn by some entropy; with [q < 2] the range of
    [random.randint(1, q-1)] is empty and [keygen] raises [ValueError]
    without reading any entropy. *)
Theorem keygen_contract p q g st :
  p ≠ 0 →
  (2 ≤ q →
     (∃ x, 1 ≤ x ≤ q - 1 ∧
           Setup.keygen p q g st = Ok ((x, g ^ x mod p), advance st)) ∧
     (∀ x, 1 ≤ x ≤ q - 1 →
           Setup.keygen p q g (const_rng (x - 1))
           = Ok ((x, g ^ x mod p), advance (const_rng (x - 1))))) ∧
  (q < 2 → Setup.keygen p q g st = Raise ValueError).
Proof.
  intros Hp. unfold Setup.keygen, mbind, M_bind, randint. split.
  - intros Hq. destruct (Z.ltb_spec (q - 1) 1); [lia|]. split.
    + exists (1 + tape st (pos st) mod (q - 1 - 1 + 1)).
      assert (0 ≤ tape st (pos st) mod (q - 1 - 1 + 1) < q - 1 - 1 + 1)
        by (apply Z.mod_pos_bound; lia).
      split; [lia|].
      rewrite py_pow_nonneg by lia. reflexivity.
    + intros x Hx. cbn [tape pos const_rng].
      replace (1 + (x - 1) mod (q - 1 - 1 + 1)) with x
        by (rewrite Z.mod_small; lia).
      rewrite py_pow_nonneg by lia. reflexivity.
  - intros Hq. destruct (Z.ltb_spec (q - 1) 1); [reflexivity|lia].
Qed.

Lemma keygen_contract_witness :
  (2 ≤ 11 →
     (∃ x, 1 ≤ x ≤ 11 - 1 ∧
           Setup.keygen 89 11 2 (const_rng 8)
           = Ok ((x, 2 ^ x mod 89), advance (const_rng 8))) ∧
     (∀ x, 1 ≤ x ≤ 11 - 1 →
           Setup.keygen 89 11 2 (const_rng (x - 1))
           = Ok ((x, 2 ^ x mod 89), advance (const_rng (x - 1))))) ∧
  (11 < 2 → Setup.keygen 89 11 2 (const_rng 8) = Raise ValueError).
Proof.
  apply (keygen_contract 89 11 2 (const_rng 8)). lia.
Defined.

(** C10, counterexample.  With [q = 1] [keygen] raises [ValueError], which
    is not [InvalidParametersError]. *)
Lemma keygen_raises_ValueError :
  1 < 2 ∧
  Setup.keygen 89 1 2 (const_rng 0) = Raise ValueError ∧
  Setup.keygen 89 1 2 (const_rng 0) ≠ Raise InvalidParametersError.
Proof.
  split; [lia|]. split; [reflexivity|]. discriminate.
Qed.

(** ** The search never raises *)

Lemma py_all_total f l :
  (∀ i, In i l → ∃ b, f i = Ok b) → ∃ b, py_all f l = Ok b.
Proof.
  induction l as [|j l IH]; cbn; intros Hf; [eauto|].
  destruct (Hf j ltac:(auto)) as [[|] ->]; cbn; eauto.
Qed.

Lemma trial_division_total n : 0 ≤ n → ∃ b, Setup.trial_division n = Ok b.
Proof.
  intros Hn. unfold Setup.trial_division, py_isqrt.
  destruct (Z.ltb_spec n 0); [lia|]. cbn.
  apply py_all_total. intros i Hi%in_py_range.
  rewrite py_mod_nonzero by lia. cbn. eauto.
Qed.

Lemma search_g_total p q gs :
  1 < p → 0 < q → ∃ r, Setup.search_g p q gs = Ok r.
Proof.
  intros Hp Hq.
  assert (Hdiv : 0 ≤ (p - 1) / q) by (apply Z.div_pos; lia).
  induction gs as [|g gs IH]; cbn; [eauto|].
  rewrite py_pow_nonneg by lia. cbn.
  destruct (g ^ q mod p =? 1); cbn; [|assumption].
  rewrite py_floordiv_nonzero by lia. cbn.
  rewrite py_pow_nonneg by lia. cbn.
  destruct (g ^ ((p - 1) / q) mod p =? 1); cbn; eauto.
Qed.

Lemma search_q_total p qs :
  (∀ q, In q qs → 2 ≤ q < p) → ∃ r, Setup.search_q p qs = Ok r.
Proof.
  induction qs as [|q qs IH]; cbn; intros Hqs; [eauto|].
  assert (Hq : 2 ≤ q < p) by (apply Hqs; auto).
  assert (Hrest : ∃ r, Setup.search_q p qs = Ok r)
    by (apply IH; intros; apply Hqs; auto).
  rewrite py_mod_nonzero by lia. cbn.
  destruct ((p - 1) mod q =? 0); cbn; [|assumption].
  destruct (trial_division_total q ltac:(lia)) as [[|] ->]; cbn;
    [|assumption].
  destruct (search_g_total p q (py_range 2 p) ltac:(lia) ltac:(lia))
    as [[g|] ->]; cbn; eauto.
Qed.

(** After any number of iterations the loop has returned a triple or is
    still drawing, one entropy word read per iteration; it has raised
    nothing. *)
Lemma generate_parameters_in_progress lo hi fuel st :
  0 ≤ lo ≤ hi →
  (∃ st', Setup.generate_parameters_in lo hi fuel st = Ok (None, st') ∧
          pos st' = (pos st + fuel)%nat) ∨
  (∃ p q g st',
     Setup.generate_parameters_in lo hi fuel st = Ok (Some (p, q, g), st')).
Proof.
  intros Hlohi. revert st.
  induction fuel as [|fuel IH]; intros st; cbn.
  { left. eexists. split; [reflexivity|]. lia. }
  unfold mbind, M_bind, randint.
  destruct (Z.ltb_spec hi lo); [lia|].
  set (p0 := lo + tape st (pos st) mod (hi - lo + 1)).
  assert (Hp0 : 0 ≤ p0).
  { pose proof (Z.mod_pos_bound (tape st (pos st)) (hi - lo + 1)). lia. }
  assert (Hnext :
    (∃ st', Setup.generate_parameters_in lo hi fuel (advance st)
            = Ok (None, st') ∧ pos st' = (pos st + S fuel)%nat) ∨
    (∃ p q g st', Setup.generate_parameters_in lo hi fuel (advance st)
                  = Ok (Some (p, q, g), st'))).
  { destruct (IH (advance st)) as [(st' & -> & Hpos)|Hret];
      [left|right; exact Hret].
    eexists. split; [reflexivity|]. cbn in Hpos. lia. }
  unfold lift.
  destruct (trial_division_total p0 Hp0) as [[|] ->]; [|exact Hnext].
  destruct (search_q_total p0 (py_range 2 p0)) as [[[q g]|] ->];
    [intros ? ?%in_py_range; lia| |exact Hnext].
  right. cbn. eauto.
Qed.

(** A returned triple does not change when more iterations are allowed. *)
Lemma generate_parameters_in_more_fuel lo hi fuel k st r st' :
  Setup.generate_parameters_in lo hi fuel st = Ok (Some r, st') →
  Setup.generate_parameters_in lo hi (fuel + k) st = Ok (Some r, st').
Proof.
  revert st. induction fuel as [|fuel IH]; intros st; cbn; [discriminate|].
  unfold mbind, M_bind.
  destruct (randint lo hi st) as [[p0 st1]|e]; [|discriminate].
  destruct (lift (Setup.trial_division p0) st1) as [[[|] st2]|e];
    [|apply IH|discriminate].
  destruct (lift (Setup.search_q p0 (py_range 2 p0)) st2)
    as [[[[q1 g1]|] st3]|e]; [trivial|apply IH|discriminate].
Qed.

(** On a tape that always draws [p = 37] the search finds nothing
    ([36 = 2^2 * 3^2] has no prime factor [q] with an element of order [q]
    passing both tests) and goes on. *)
Lemma generate_parameters_stuck fuel st :
  (∀ n, tape st n = 17) →
  ∃ st', Setup.generate_parameters_in 20 100 fuel st = Ok (None, st').
Proof.
  revert st. induction fuel as [|fuel IH]; intros st Htape; cbn; [eauto|].
  unfold mbind, M_bind, randint. rewrite Htape.
  change (100 <? 20) with false. cbv iota.
  change (20 + 17 mod (100 - 20 + 1)) with 37.
  replace (Setup.trial_division 37) with (@Ok bool true)
    by (vm_compute; reflexivity).
  replace (Setup.search_q 37 (py_range 2 37)) with (@Ok (option (Z * Z)) None)
    by (vm_compute; reflexivity).
  cbn. apply IH. intros n. apply Htape.
Qed.

(** C9, counterexample.  On the tape that always draws [p = 37], whatever
    the number of iterations allowed, [generate_parameters] has neither
    returned a triple nor raised an exception: the search is unbounded and
    no [ParameterGenerationError] ends it. *)
Lemma generate_parameters_searches_forever :
  ¬ ∃ fuel : nat,
      (∃ r st', Sigma.generate_parameters fuel (const_rng 17)
                = Ok (Some r, st')) ∨
      (∃ e, Sigma.generate_parameters fuel (const_rng 17) = Raise e).
Proof.
  intros (fuel & H). unfold Sigma.generate_parameters in H.
  destruct (generate_parameters_stuck fuel (const_rng 17)) as [st' Hst];
    [reflexivity|].
  rewrite Hst in H.
  destruct H as [(r & st'' & H)|(e & H)]; discriminate.
Qed.

(** ** The file-possession cells *)

Lemma hash_mod_eval data q :
  q ≠ 0 → Schnorr3.hash_mod data q = Ok (hash_int data mod q).
Proof. intros Hq. unfold Schnorr3.hash_mod. now rewrite py_mod_nonzero. Qed.

(** The parameters of the notebooks are far below the digit limit of
    [str]. *)
Lemma notebook_bound_below_str_limit : 10000 ≤ str_limit.
Proof. vm_compute. discriminate. Qed.

Lemma py_str_checked_small n :
  Z.abs n < str_limit → py_str_checked n = Ok (py_str n).
Proof.
  intros Hn. unfold py_str_checked.
  now destruct (Z.leb_spec str_limit (Z.abs n)); [lia|].
Qed.

Lemma py_str_checked_large n :
  str_limit ≤ Z.abs n → py_str_checked n = Raise ValueError.
Proof.
  intros Hn. unfold py_str_checked.
  now destruct (Z.leb_spec str_limit (Z.abs n)); [|lia].
Qed.

(** Below the digit limit the hashed bytes are those of the two decimal
    strings. *)
Lemma challenge_bytes_small a b :
  Z.abs a < str_limit → Z.abs b < str_limit →
  Schnorr3.challenge_bytes a b = Ok (Schnorr3.challenge_input a b).
Proof.
  intros Ha Hb. unfold Schnorr3.challenge_bytes.
  now rewrite !py_str_checked_small by assumption.
Qed.

(** Whenever bytes are produced they are those of the two decimal
    strings. *)
Lemma challenge_bytes_Ok a b bs :
  Schnorr3.challenge_bytes a b = Ok bs → bs = Schnorr3.challenge_input a b.
Proof.
  unfold Schnorr3.challenge_bytes, py_str_checked.
  destruct (str_limit <=? Z.abs a); [discriminate|].
  destruct (str_limit <=? Z.abs b); [discriminate|].
  cbn. now intros [= <-].
Qed.

(** A field of more than 4300 digits makes the conversion raise. *)
Lemma challenge_bytes_large a b :
  str_limit ≤ Z.abs a ∨ str_limit ≤ Z.abs b →
  Schnorr3.challenge_bytes a b = Raise ValueError.
Proof.
  intros Hab. unfold Schnorr3.challenge_bytes.
  destruct (Z.le_gt_cases str_limit (Z.abs a)) as [Ha|Ha].
  - rewrite (py_str_checked_large a) by assumption. reflexivity.
  - rewrite (py_str_checked_small a) by lia. cbn.
    destruct Hab as [Hab|Hab]; [lia|].
    rewrite (py_str_checked_large b) by assumption. reflexivity.
Qed.

Lemma proof_dict_fields t c s y h :
  py_getitem (proof_dict t c s y h) "commitment" = Ok t ∧
  py_getitem (proof_dict t c s y h) "challenge" = Ok c ∧
  py_getitem (proof_dict t c s y h) "response" = Ok s ∧
  py_getitem (proof_dict t c s y h) "public_value" = Ok y ∧
  py_getitem (proof_dict t c s y h) "hash" = Ok h.
Proof.
  unfold py_getitem, proof_dict. repeat split; now simplify_map_eq.
Qed.

(** What the hash-storing prover returns. *)
Lemma tamper_prove_eval C p q g x st :
  1 ≤ q ≤ str_limit → 1 ≤ p ≤ str_limit → 0 ≤ x →
  let h := hash_int C mod q in
  let r := 0 + tape st (pos st) mod (q - 1 - 0 + 1) in
  let t := g ^ r mod p in
  let c := hash_int (Schnorr3.challenge_input t h) mod q in
  Schnorr3.Tamper.schnorr_prove C p q g x st
  = Ok (proof_dict t c ((r + c * x) mod q) (g ^ x mod p) h, advance st).
Proof.
  intros Hq Hp Hx h r t c.
  unfold Schnorr3.Tamper.schnorr_prove, mbind, M_bind, lift, randint.
  rewrite hash_mod_eval by lia.
  destruct (Z.ltb_spec (q - 1) 0); [lia|].
  assert (0 ≤ r) by (pose proof (Z.mod_pos_bound (tape st (pos st))
                                   (q - 1 - 0 + 1)); lia).
  fold r. rewrite py_pow_nonneg by lia. fold h t.
  pose proof (Z.mod_pos_bound (hash_int C) q ltac:(lia)) as Hh. fold h in Hh.
  pose proof (Z.mod_pos_bound (g ^ r) p ltac:(lia)) as Ht. fold t in Ht.
  rewrite challenge_bytes_small by lia.
  rewrite hash_mod_eval by lia. fold c.
  rewrite py_mod_nonzero by lia.
  rewrite py_pow_nonneg by lia. reflexivity.
Qed.

(** The hash-checking verifier on a well-formed dictionary. *)
Lemma tamper_verify_eval t c s y h C p q g :
  q ≠ 0 →
  Schnorr3.Tamper.schnorr_verify (proof_dict t c s y h) C p q g
  = if negb (hash_int C mod q =? h) then Ok false
    else Sigma.sigma_verify p g y t c s.
Proof.
  intros Hq. unfold Schnorr3.Tamper.schnorr_verify.
  rewrite hash_mod_eval by assumption.
  destruct (proof_dict_fields t c s y h) as (-> & -> & -> & -> & ->).
  cbn. destruct (hash_int C mod q =? h); reflexivity.
Qed.


(** The cell without a stored hash: on a valid triple below the digit
    limit of [str] the proof made for one content is accepted on every
    content. *)
Lemma forensics_accepts_every_content C C' p q g x st :
  valid_params p q g → p ≤ str_limit →
  0 ≤ x →
  ∃ P, Schnorr3.Forensics.schnorr_prove C p q g x st = Ok (P, advance st) ∧
       Schnorr3.Forensics.schnorr_verify P C' p q g = Ok true.
Proof.
  intros [Hp Hq Hdvd (Hq0 & Hgq & _)] Hlim Hx.
  assert (Hqp : q ≤ p - 1)
    by (apply Z.divide_pos_le; [apply Z.prime_ge_2 in Hp; lia|assumption]).
  apply Z.prime_ge_2 in Hp.
  unfold Schnorr3.Forensics.schnorr_prove, mbind, M_bind, lift, randint.
  rewrite hash_mod_eval by lia.
  destruct (Z.ltb_spec (q - 1) 0); [lia|].
  set (r := 0 + tape st (pos st) mod (q - 1 - 0 + 1)).
  assert (Hr : 0 ≤ r).
  { pose proof (Z.mod_pos_bound (tape st (pos st)) (q - 1 - 0 + 1)).
    unfold r. lia. }
  rewrite py_pow_nonneg by lia.
  pose proof (Z.mod_pos_bound (g ^ r) p ltac:(lia)) as Ht.
  pose proof (Z.mod_pos_bound (hash_int C) q ltac:(lia)) as Hh.
  rewrite challenge_bytes_small by lia.
  rewrite hash_mod_eval by lia.
  set (c := hash_int _ mod q).
  assert (Hc : 0 ≤ c) by (pose proof (Z.mod_pos_bound (hash_int
    (Schnorr3.challenge_input (g ^ r mod p) (hash_int C mod q))) q); lia).
  rewrite py_mod_nonzero by lia.
  rewrite py_pow_nonneg by lia.
  eexists. split; [reflexivity|].
  unfold Schnorr3.Forensics.schnorr_verify.
  rewrite hash_mod_eval by lia.
  unfold py_getitem. simplify_map_eq. cbn.
  apply (honest_transcript_accepted p q g); assumption || lia.
Qed.

(** Powers of a subgroup element are units modulo [p]. *)
Lemma subgroup_power_nonzero p q g k c :
  1 < p → 0 < q → cong p (g ^ q) 1 → 0 ≤ k → 0 ≤ c →
  ((g ^ k mod p) ^ c) mod p ≠ 0.
Proof.
  intros Hp Hq Hgq Hk Hc Hz.
  assert (H1 : (((g ^ k mod p) ^ c) ^ q) mod p = 1).
  { rewrite <- Z.pow_mul_r by lia.
    rewrite <- Zpower_mod by lia.
    rewrite <- Z.pow_mul_r by nia.
    replace (k * (c * q)) with (q * (k * c)) by lia.
    apply (pow_mul_order p q g); try assumption. nia. }
  rewrite Zpower_mod in H1 by lia. rewrite Hz in H1.
  rewrite Z.pow_0_l in H1 by lia.
  rewrite Z.mod_0_l in H1 by lia. discriminate.
Qed.

(** What the hash check does detect.  On a valid triple below the digit
    limit of [str] and a secret of [1..q-1], the hash-storing prover returns
    a proof [P] that the hash-checking verifier accepts on the same content,
    and rejects, before the algebraic check, on every content whose hash
    modulo [q] differs from the one stored in [P]. *)
Lemma tamper_detection p q g x C st :
  valid_params p q g →
  p ≤ str_limit →
  1 ≤ x ≤ q - 1 →
  ∃ P st',
    Schnorr3.Tamper.schnorr_prove C p q g x st = Ok (P, st') ∧
    Schnorr3.Tamper.schnorr_verify P C p q g = Ok true ∧
    ∀ C', Schnorr3.hash_mod C' q ≠ Schnorr3.hash_mod C q →
          Schnorr3.Tamper.schnorr_verify P C' p q g = Ok false.
Proof.
  intros [Hp Hq Hdvd (Hq0 & Hgq & _)] Hlim Hx.
  assert (Hqp : q ≤ p - 1)
    by (apply Z.divide_pos_le; [apply Z.prime_ge_2 in Hp; lia|assumption]).
  apply Z.prime_ge_2 in Hp.
  rewrite tamper_prove_eval by lia. cbv zeta.
  set (h := hash_int C mod q).
  set (r := 0 + tape st (pos st) mod (q - 1 - 0 + 1)).
  set (t := g ^ r mod p).
  set (c := hash_int (Schnorr3.challenge_input t h) mod q).
  assert (Hr : 0 ≤ r).
  { pose proof (Z.mod_pos_bound (tape st (pos st)) (q - 1 - 0 + 1)).
    unfold r. lia. }
  assert (Hc : 0 ≤ c).
  { pose proof (Z.mod_pos_bound (hash_int (Schnorr3.challenge_input t h)) q).
    unfold c. lia. }
  eexists _, _. split; [reflexivity|]. split.
  - rewrite tamper_verify_eval by lia. fold h. rewrite Z.eqb_refl. cbn.
    apply (honest_transcript_accepted p q g); assumption || lia.
  - intros C' Hne. rewrite tamper_verify_eval by lia.
    rewrite !hash_mod_eval in Hne by lia. fold h in Hne.
    destruct (Z.eqb_spec (hash_int C' mod q) h) as [Heq|_];
      [|reflexivity].
    congruence.
Qed.

(** What it does not detect.  With the triple [(1019, 2, 1018)] the two
    contents below differ and have the same hash modulo [q = 2]; the proof
    made for the first is accepted on the second. *)
Lemma tamper_undetected_on_equal_hash :
  valid_params 1019 2 1018 ∧
  py_encode "This is confidential forensic evidence. Altered!"
  ≠ py_encode "This is confidential forensic evidence." ∧
  ∃ P st',
    Schnorr3.Tamper.schnorr_prove
      (py_encode "This is confidential forensic evidence.")
      1019 2 1018 1 (const_rng 0) = Ok (P, st') ∧
    Schnorr3.Tamper.schnorr_verify P
      (py_encode "This is confidential forensic evidence. Altered!")
      1019 2 1018 = Ok true.
Proof.
  pose proof notebook_bound_below_str_limit as Hlim.
  split.
  { apply (generate_parameters_in_valid 1000 10000 1 (const_rng 19)
             1019 2 1018 (advance (const_rng 19))).
    vm_compute. reflexivity. }
  split.
  { intros H. apply (f_equal (@length byte)) in H. vm_compute in H.
    discriminate. }
  rewrite tamper_prove_eval by lia. cbv zeta.
  eexists _, _. split; [reflexivity|].
  rewrite tamper_verify_eval by lia.
  vm_compute. reflexivity.
Qed.

(** C3.  The tamper check of the notebook misses the notebook's own
    tampering.  When [generate_parameters] draws [p = 1061] it returns
    [(1061, 5, 220)]; the text the cell writes first and the text it writes
    after appending [" Altered."] differ and have the same SHA-256 hash
    modulo [q = 5].  For every secret of [1..4] and every state of the
    random source, the proof made for the first content is accepted on the
    second, where the cell announces that the verification fails: the cell
    returns [valid_before = True] and [valid_after = True]. *)
Theorem tamper_check_misses_notebook_tampering :
  Setup.generate_parameters_in 1000 10000 1 (const_rng 61)
  = Ok (Some (1061, 5, 220), advance (const_rng 61)) ∧
  valid_params 1061 5 220 ∧
  py_encode "This is confidential forensic evidence. Altered."
  ≠ py_encode "This is confidential forensic evidence." ∧
  (∀ x st, 1 ≤ x ≤ 5 - 1 →
     ∃ P,
       Schnorr3.Tamper.schnorr_prove
         (py_encode "This is confidential forensic evidence.")
         1061 5 220 x st = Ok (P, advance st) ∧
       Schnorr3.Tamper.schnorr_verify P
         (py_encode "This is confidential forensic evidence.")
         1061 5 220 = Ok true ∧
       Schnorr3.Tamper.schnorr_verify P
         (py_encode "This is confidential forensic evidence. Altered.")
         1061 5 220 = Ok true) ∧
  Schnorr3Cells.tamper_cell 1
    (py_encode "This is confidential forensic evidence.")
    (py_encode "This is confidential forensic evidence. Altered.")
    (const_rng 61)
  = Ok (Some (true, true), advance (advance (advance (const_rng 61)))).
Proof.
  pose proof notebook_bound_below_str_limit as Hlim.
  assert (Hgen : Setup.generate_parameters_in 1000 10000 1 (const_rng 61)
                 = Ok (Some (1061, 5, 220), advance (const_rng 61)))
    by (vm_compute; reflexivity).
  pose proof (generate_parameters_in_valid _ _ _ _ _ _ _ _ Hgen) as Hv.
  destruct (vp_order _ _ _ Hv) as (Hq0 & Hgq & _).
  split; [exact Hgen|]. split; [exact Hv|]. split.
  { intros H. apply (f_equal (@length byte)) in H. vm_compute in H.
    discriminate. }
  split; [|vm_compute; reflexivity].
  intros x st Hx.
  rewrite tamper_prove_eval by lia. cbv zeta.
  eexists. split; [reflexivity|].
  rewrite !tamper_verify_eval by lia.
  replace (hash_int
             (py_encode "This is confidential forensic evidence. Altered.")
           mod 5)
    with (hash_int (py_encode "This is confidential forensic evidence.")
          mod 5) by (vm_compute; reflexivity).
  rewrite Z.eqb_refl. cbn [negb].
  assert (Hacc : ∀ r c, 0 ≤ r → 0 ≤ c →
            Sigma.sigma_verify 1061 220 (220 ^ x mod 1061)
              (220 ^ r mod 1061) c ((r + c * x) mod 5) = Ok true).
  { intros r c Hr Hc.
    apply (honest_transcript_accepted 1061 5 220); assumption || lia. }
  rewrite Hacc; [auto| |].
  - pose proof (Z.mod_pos_bound (tape st (pos st)) (5 - 1 - 0 + 1)). lia.
  - apply Z.mod_pos_bound. lia.
Qed.

(** C5.  The hash-checking verifier takes the challenge from the proof and
    never derives it again.  On a valid triple, for [y] in the subgroup
    generated by [g], a content [C] with stored hash [h], and any [c] and
    [s] of [0..q-1], the dictionary with commitment
    [g^s * (y^c)^(-1) mod p] is accepted; it is built without a secret and
    its challenge need not be the hash of the commitment and [h]. *)
Theorem forged_proof_accepted p q g y C h c s :
  valid_params p q g →
  (∃ k, 0 ≤ k ∧ y = g ^ k mod p) →
  Schnorr3.hash_mod C q = Ok h →
  0 ≤ c ≤ q - 1 →
  0 ≤ s ≤ q - 1 →
  Schnorr3.Tamper.schnorr_verify (forged_proof p g y h c s) C p q g
  = Ok true.
Proof.
  intros [Hp Hq _ (Hq0 & Hgq & _)] (k & Hk & ->) Hh Hc Hs.
  pose proof (Z.prime_ge_2 _ Hp) as Hp2.
  rewrite hash_mod_eval in Hh by lia. injection Hh as <-.
  unfold forged_proof. rewrite tamper_verify_eval by lia.
  rewrite Z.eqb_refl. cbn [negb].
  rewrite sigma_verify_eval by lia.
  set (yc := (g ^ k mod p) ^ c).
  assert (Hinv : (Z.invmod yc p * yc) mod p = 1).
  { apply Z.invmod_prime; [assumption|].
    apply (subgroup_power_nonzero p q g); assumption || lia. }
  rewrite <- Z.mul_mod by lia.
  rewrite <- Z.mul_assoc, Z.mul_mod, Hinv by lia.
  rewrite Z.mul_1_r, Z.mod_mod by lia.
  now rewrite Z.eqb_refl.
Qed.

Lemma forged_proof_accepted_witness :
  Schnorr3.hash_mod
    (Schnorr3.challenge_input ((2 ^ 3 * Z.invmod (67 ^ 5) 89) mod 89) 7) 11
  ≠ Ok 5 ∧
  Schnorr3.Tamper.schnorr_verify (forged_proof 89 2 67 7 5 3)
    (py_encode "abc") 89 11 2 = Ok true.
Proof.
  split.
  { vm_compute. discriminate. }
  apply (forged_proof_accepted 89 11 2 67 (py_encode "abc") 7 5 3).
  - apply (generate_parameters_in_valid 20 100 1 (const_rng 69) 89 11 2
             (advance (const_rng 69))).
    vm_compute. reflexivity.
  - exists 9. split; [lia|reflexivity].
  - vm_compute. reflexivity.
  - lia.
  - lia.
Defined.

(** ** The bytes hashed into the challenge *)

(** [str] on integers can be read back. *)
Lemma int_of_string_py_str z :
  option_map Z.of_int (NilZero.int_of_string (py_str z)) = Some z.
Proof.
  unfold py_str.
  pose proof (DecimalZ.of_to z) as Hz.
  destruct (Z.to_int z) as [u|u].
  - destruct u;
      try (rewrite NilZero.isi by discriminate; cbn [option_map];
           now rewrite Hz).
    rewrite NilZero.isi_posnil. cbn [option_map]. now rewrite <- Hz.
  - destruct u;
      try (rewrite NilZero.isi by discriminate; cbn [option_map];
           now rewrite Hz).
    rewrite NilZero.isi_negnil. cbn [option_map]. now rewrite <- Hz.
Qed.

Lemma py_str_inj a b : py_str a = py_str b → a = b.
Proof.
  intros H.
  pose proof (int_of_string_py_str a) as Ha.
  rewrite H, int_of_string_py_str in Ha. now injection Ha.
Qed.

Lemma py_encode_inj a b : py_encode a = py_encode b → a = b.
Proof.
  unfold py_encode. intros H.
  rewrite <- (string_of_list_byte_of_string a).
  rewrite <- (string_of_list_byte_of_string b). now rewrite H.
Qed.

Lemma append_inj_same_length a a' b b' :
  String.length a = String.length a' →
  String.append a b = String.append a' b' → a = a' ∧ b = b'.
Proof.
  revert a'. induction a as [|x a IH]; intros [|x' a']; cbn;
    try discriminate; [auto|].
  intros [= Hlen] [= -> Happ].
  destruct (IH a' Hlen Happ) as [-> ->]. auto.
Qed.

Lemma list_ascii_of_string_append s1 s2 :
  list_ascii_of_string (String.append s1 s2)
  = list_ascii_of_string s1 ++ list_ascii_of_string s2.
Proof.
  induction s1 as [|x s1 IH]; [reflexivity|].
  change (String x s1 +:+ s2) with (String x (s1 +:+ s2)). cbn.
  now rewrite IH.
Qed.

(** The hashed bytes are the two decimal strings one after the other, with
    nothing between them. *)
Lemma challenge_input_concat a b :
  Schnorr3.challenge_input a b = py_encode (py_str a) ++ py_encode (py_str b).
Proof.
  unfold Schnorr3.challenge_input, py_encode, list_byte_of_string.
  rewrite list_ascii_of_string_append. apply map_app.
Qed.

(** C7 (as the code has it).  The challenge is the hash of
    [(str(t) + str(h)).encode()], the decimal strings of the two fields
    concatenated with no separator and no length prefix.  Two distinct pairs
    whose first fields have decimal strings of the same length, in
    particular two pairs with the same first field, give different byte
    strings. *)
Theorem challenge_input_distinct_same_width t h t' h' :
  String.length (py_str t) = String.length (py_str t') →
  (t, h) ≠ (t', h') →
  Schnorr3.challenge_input t h ≠ Schnorr3.challenge_input t' h'.
Proof.
  intros Hlen Hne Heq. apply Hne.
  unfold Schnorr3.challenge_input in Heq.
  apply py_encode_inj in Heq.
  apply append_inj_same_length in Heq; [|assumption].
  destruct Heq as [Ht%py_str_inj Hh%py_str_inj]. congruence.
Qed.

Lemma challenge_input_distinct_same_width_witness :
  Schnorr3.challenge_input 12 3 ≠ Schnorr3.challenge_input 13 2.
Proof.
  apply (challenge_input_distinct_same_width 12 3 13 2).
  - reflexivity.
  - discriminate.
Defined.

(** C7, counterexample.  The pairs [(1, 23)] and [(12, 3)] differ and are
    hashed as the same bytes, those of ["123"]. *)
Lemma challenge_input_collision :
  (1, 23) ≠ (12, 3) ∧
  Schnorr3.challenge_input 1 23 = py_encode "123" ∧
  Schnorr3.challenge_input 12 3 = py_encode "123" ∧
  Schnorr3.challenge_input 1 23 = Schnorr3.challenge_input 12 3.
Proof.
  split; [discriminate|]. repeat split; reflexivity.
Qed.

(** ** Further properties of the cells *)

(** *** The random source and the monad *)

Lemma randint_draw a b st :
  a ≤ b → randint a b st = Ok (draw a b st, advance st).
Proof.
  intros Hab. unfold randint, draw. now destruct (Z.ltb_spec b a); [lia|].
Qed.

Lemma randint_empty a b st : b < a → randint a b st = Raise ValueError.
Proof.
  intros Hab. unfold randint. now destruct (Z.ltb_spec b a); [|lia].
Qed.

Lemma draw_range a b st : a ≤ b → a ≤ draw a b st ≤ b.
Proof.
  intros Hab. unfold draw.
  pose proof (Z.mod_pos_bound (tape st (pos st)) (b - a + 1)). lia.
Qed.

Lemma draw_const a b v : a ≤ v ≤ b → draw a b (const_rng (v - a)) = v.
Proof.
  intros Hv. unfold draw. cbn [tape pos const_rng].
  rewrite Z.mod_small by lia. lia.
Qed.

Lemma bind_Ok {A B} (m : M A) (f : A → M B) st a st' :
  m st = Ok (a, st') → (m ≫= f) st = f a st'.
Proof. intros H. unfold mbind, M_bind. now rewrite H. Qed.

Lemma bind_Raise {A B} (m : M A) (f : A → M B) st e :
  m st = Raise e → (m ≫= f) st = Raise e.
Proof. intros H. unfold mbind, M_bind. now rewrite H. Qed.

Lemma lift_Ok {A} (r : result A) a st : r = Ok a → lift r st = Ok (a, st).
Proof. now intros ->. Qed.

(** *** Exponents in the subgroup *)

Lemma pow_difference_one p q g a b :
  1 < p → 0 < q → cong p (g ^ q) 1 →
  0 ≤ a ≤ b → a ≤ q →
  g ^ a mod p = g ^ b mod p → g ^ (b - a) mod p = 1.
Proof.
  intros Hp Hq Hgq Hab Haq Heq.
  assert (E : (g ^ (q - a) * g ^ b) mod p = (g ^ (q - a) * g ^ a) mod p).
  { rewrite (Z.mul_mod (g ^ (q - a)) (g ^ b)) by lia.
    rewrite <- Heq. now rewrite <- Z.mul_mod by lia. }
  rewrite <- !Z.pow_add_r in E by lia.
  replace (q - a + a) with (q * 1) in E by lia.
  rewrite (pow_mul_order p q g) in E by (assumption || lia).
  replace (q - a + b) with (q * 1 + (b - a)) in E by lia.
  rewrite Z.pow_add_r, Z.mul_mod in E by lia.
  rewrite (pow_mul_order p q g) in E by (assumption || lia).
  now rewrite Z.mul_1_l, Z.mod_mod in E by lia.
Qed.

(** Powers of an element of order exactly [q] agree modulo [p] exactly when
    the exponents agree modulo [q]. *)
Lemma pow_cong_iff p q g a b :
  1 < p → order_exactly p g q → 0 ≤ a → 0 ≤ b →
  g ^ a mod p = g ^ b mod p ↔ a mod q = b mod q.
Proof.
  intros Hp (Hq & Hgq & Hord) Ha Hb. split.
  - intros Heq.
    rewrite <- (pow_exponent_mod p q g Hp Hq Hgq a Ha) in Heq.
    rewrite <- (pow_exponent_mod p q g Hp Hq Hgq b Hb) in Heq.
    pose proof (Z.mod_pos_bound a q Hq) as Ha'.
    pose proof (Z.mod_pos_bound b q Hq) as Hb'.
    destruct (Z.lt_trichotomy (a mod q) (b mod q)) as [Hlt|[Heq'|Hgt]];
      [|assumption|].
    + exfalso. apply (Hord (b mod q - a mod q)); [lia|].
      red. rewrite one_mod_p by lia.
      apply (pow_difference_one p q g); assumption || lia.
    + exfalso. apply (Hord (a mod q - b mod q)); [lia|].
      red. rewrite one_mod_p by lia.
      apply (pow_difference_one p q g); assumption || lia.
  - intros Heq.
    rewrite <- (pow_exponent_mod p q g Hp Hq Hgq a Ha).
    rewrite <- (pow_exponent_mod p q g Hp Hq Hgq b Hb).
    now rewrite Heq.
Qed.

(** Solving [x * d ≡ e (mod q)] for [x], [q] prime. *)
Lemma linear_cong_solve q x d e :
  Z.prime q → d mod q ≠ 0 → (x * d) mod q = e mod q →
  (e * Z.invmod d q) mod q = x mod q.
Proof.
  intros Hq Hd Heq. pose proof (Z.prime_ge_2 _ Hq).
  rewrite <- Z.mul_mod_idemp_l, <- Heq, Z.mul_mod_idemp_l by lia.
  rewrite <- Z.mul_assoc, <- Z.mul_mod_idemp_r by lia.
  rewrite (Z.mul_comm d), Z.invmod_prime by assumption.
  now rewrite Z.mul_1_r.
Qed.

(** The verifier on a commitment [g^r mod p] and a key [g^x mod p]: it
    compares the exponents modulo [q]. *)
Lemma sigma_verify_exponents p q g x r c s :
  valid_params p q g → 0 ≤ x → 0 ≤ r → 0 ≤ c → 0 ≤ s →
  Sigma.sigma_verify p g (g ^ x mod p) (g ^ r mod p) c s
  = Ok (s mod q =? (r + c * x) mod q).
Proof.
  intros [Hp Hq _ Hord] Hx Hr Hc Hs.
  apply Z.prime_ge_2 in Hp.
  rewrite sigma_verify_eval by lia.
  rewrite honest_rhs by lia. f_equal.
  destruct (Z.eqb_spec (s mod q) ((r + c * x) mod q)) as [E|E].
  - apply Z.eqb_eq. apply (pow_cong_iff p q g); (assumption || nia).
  - apply Z.eqb_neq. intros E'. apply E.
    apply (pow_cong_iff p q g) in E'; (assumption || nia).
Qed.

(** *** The interactive protocol *)

(** X1.  The commitment step ([sigma_commit], and [schnorr_prove] of
    [schnorr_2]) on a non-zero modulus: with [q >= 1] it reads one entropy
    word, the nonce lies in [0..q-1] and the commitment is [g^r mod p];
    with [q < 1] the range of [random.randint(0, q-1)] is empty and it
    raises [ValueError]; [schnorr_prove] computes the same as
    [sigma_commit] and does not depend on its secret argument [x]. *)
Theorem commit_contract p q g x x' st :
  p ≠ 0 →
  (1 ≤ q →
     0 ≤ draw 0 (q - 1) st ≤ q - 1 ∧
     Sigma.sigma_commit p q g st
     = Ok ((draw 0 (q - 1) st, g ^ draw 0 (q - 1) st mod p), advance st)) ∧
  (q < 1 → Sigma.sigma_commit p q g st = Raise ValueError) ∧
  Schnorr.schnorr_prove p q g x st = Sigma.sigma_commit p q g st ∧
  Schnorr.schnorr_prove p q g x' st = Schnorr.schnorr_prove p q g x st.
Proof.
  intros Hp. split; [|split; [|split; reflexivity]].
  - intros Hq. pose proof (draw_range 0 (q - 1) st ltac:(lia)) as Hr.
    split; [exact Hr|]. unfold Sigma.sigma_commit.
    rewrite (bind_Ok _ _ _ _ _ (randint_draw 0 (q - 1) st ltac:(lia))).
    rewrite py_pow_nonneg by lia. reflexivity.
  - intros Hq. unfold Sigma.sigma_commit.
    apply bind_Raise. apply randint_empty. lia.
Qed.

Lemma commit_contract_witness :
  (1 ≤ 11 →
     0 ≤ draw 0 (11 - 1) (const_rng 5) ≤ 11 - 1 ∧
     Sigma.sigma_commit 89 11 2 (const_rng 5)
     = Ok ((draw 0 (11 - 1) (const_rng 5),
            2 ^ draw 0 (11 - 1) (const_rng 5) mod 89),
           advance (const_rng 5))) ∧
  (11 < 1 → Sigma.sigma_commit 89 11 2 (const_rng 5) = Raise ValueError) ∧
  Schnorr.schnorr_prove 89 11 2 9 (const_rng 5)
  = Sigma.sigma_commit 89 11 2 (const_rng 5) ∧
  Schnorr.schnorr_prove 89 11 2 4 (const_rng 5)
  = Schnorr.schnorr_prove 89 11 2 9 (const_rng 5).
Proof.
  apply (commit_contract 89 11 2 9 4 (const_rng 5)). lia.
Defined.

(** X2.  A nonce used twice reveals the secret: from the responses
    [sigma_response] gives to two challenges that differ modulo a prime
    [q], under the same nonce [r], the secret [x] of [0..q-1] is
    [(s1 - s2) * (c1 - c2)^(-1) mod q]. *)
Theorem nonce_reuse_reveals_secret q x r c1 c2 s1 s2 :
  Z.prime q →
  0 ≤ x ≤ q - 1 →
  (c1 - c2) mod q ≠ 0 →
  Sigma.sigma_response q x r c1 = Ok s1 →
  Sigma.sigma_response q x r c2 = Ok s2 →
  recover_secret q c1 s1 c2 s2 = x.
Proof.
  intros Hq Hx Hc H1 H2. pose proof (Z.prime_ge_2 _ Hq).
  unfold Sigma.sigma_response in H1, H2.
  rewrite py_mod_nonzero in H1, H2 by lia. cbn in H1, H2.
  injection H1 as <-. injection H2 as <-.
  unfold recover_secret.
  rewrite (linear_cong_solve q x (c1 - c2)); try assumption.
  - apply Z.mod_small. lia.
  - rewrite Zminus_mod_idemp_l, Zminus_mod_idemp_r.
    f_equal. lia.
Qed.

Lemma nonce_reuse_reveals_secret_witness :
  recover_secret 11 2 1 8 0 = 9.
Proof.
  apply (nonce_reuse_reveals_secret 11 9 5 2 8 1 0).
  - apply trial_division_prime; [lia|reflexivity].
  - lia.
  - vm_compute. discriminate.
  - reflexivity.
  - reflexivity.
Defined.

(** X3.  On a valid triple, for a key [y = g^x mod p], a commitment
    [t = g^r mod p] and a challenge [c >= 0], exactly one response of
    [0..q-1] is accepted by [sigma_verify] and [schnorr_verify]: the one
    [sigma_response] computes. *)
Theorem accepted_iff_honest_response p q g x y r t c s :
  valid_params p q g →
  0 ≤ x → py_pow g x p = Ok y →
  0 ≤ r → py_pow g r p = Ok t →
  0 ≤ c →
  0 ≤ s ≤ q - 1 →
  ∃ s0,
    Sigma.sigma_response q x r c = Ok s0 ∧
    Sigma.sigma_verify p g y t c s = Ok (s =? s0) ∧
    Schnorr.schnorr_verify p q g y t c s = Ok (s =? s0).
Proof.
  intros Hv Hx Hy Hr Ht Hc Hs.
  pose proof (Z.prime_ge_2 _ (vp_prime_p _ _ _ Hv)).
  pose proof (Z.prime_ge_2 _ (vp_prime_q _ _ _ Hv)).
  rewrite py_pow_nonneg in Hy, Ht by lia.
  injection Hy as <-. injection Ht as <-.
  exists ((r + c * x) mod q). unfold Sigma.sigma_response.
  rewrite py_mod_nonzero by lia. split; [reflexivity|].
  rewrite sigma_schnorr_verify_same.
  rewrite (sigma_verify_exponents p q g) by (assumption || lia).
  rewrite (Z.mod_small s q) by lia. auto.
Qed.

Lemma accepted_iff_honest_response_witness :
  ∃ s0,
    Sigma.sigma_response 11 9 8 3 = Ok s0 ∧
    Sigma.sigma_verify 89 2 67 78 3 4 = Ok (4 =? s0) ∧
    Schnorr.schnorr_verify 89 11 2 67 78 3 4 = Ok (4 =? s0).
Proof.
  apply (accepted_iff_honest_response 89 11 2 9 67 8 78 3 4).
  - apply (generate_parameters_in_valid 20 100 1 (const_rng 69) 89 11 2
             (advance (const_rng 69))).
    vm_compute. reflexivity.
  - lia.
  - reflexivity.
  - lia.
  - reflexivity.
  - lia.
  - lia.
Defined.

(** X4.  Special soundness.  On a valid triple and a key [y = g^x mod p]
    with [x] in [0..q-1], two transcripts with the same commitment [t]
    (any integer), both accepted by [sigma_verify], whose challenges differ
    modulo [q], give the secret: [x = (s1 - s2) * (c1 - c2)^(-1) mod q]. *)
Theorem special_soundness p q g x y t c1 s1 c2 s2 :
  valid_params p q g →
  0 ≤ x ≤ q - 1 → py_pow g x p = Ok y →
  0 ≤ c1 → 0 ≤ s1 → 0 ≤ c2 → 0 ≤ s2 →
  (c1 - c2) mod q ≠ 0 →
  Sigma.sigma_verify p g y t c1 s1 = Ok true →
  Sigma.sigma_verify p g y t c2 s2 = Ok true →
  recover_secret q c1 s1 c2 s2 = x.
Proof.
  intros Hv Hx Hy Hc1 Hs1 Hc2 Hs2 Hc V1 V2.
  pose proof (Z.prime_ge_2 _ (vp_prime_p _ _ _ Hv)) as Hp.
  pose proof (Z.prime_ge_2 _ (vp_prime_q _ _ _ Hv)) as Hq.
  rewrite py_pow_nonneg in Hy by lia. injection Hy as <-.
  assert (Hp1 : 1 < p) by lia.
  assert (Hn1 : 0 ≤ x * c1) by (apply Z.mul_nonneg_nonneg; lia).
  assert (Hn2 : 0 ≤ x * c2) by (apply Z.mul_nonneg_nonneg; lia).
  assert (Ha : 0 ≤ s1 + x * c2) by lia.
  assert (Hb : 0 ≤ s2 + x * c1) by lia.
  rewrite sigma_verify_eval in V1, V2 by lia.
  injection V1 as V1. injection V2 as V2.
  apply Z.eqb_eq in V1, V2.
  rewrite <- Zpower_mod, Z.mul_mod_idemp_r, <- Z.pow_mul_r in V1, V2 by lia.
  assert (E : g ^ (s1 + x * c2) mod p = g ^ (s2 + x * c1) mod p).
  { rewrite !Z.pow_add_r by lia.
    rewrite (Z.mul_mod (g ^ s1)), V1 by lia.
    rewrite (Z.mul_mod (g ^ s2)), V2 by lia.
    rewrite <- !Z.mul_mod by lia. f_equal. ring. }
  apply (pow_cong_iff p q g _ _ Hp1 (vp_order _ _ _ Hv) Ha Hb) in E.
  unfold recover_secret.
  rewrite (linear_cong_solve q x (c1 - c2));
    [apply Z.mod_small; lia|apply Hv|assumption|].
  replace (x * (c1 - c2)) with (s2 + x * c1 - (s2 + x * c2)) by ring.
  replace (s1 - s2) with (s1 + x * c2 - (s2 + x * c2)) by ring.
  rewrite Zminus_mod, <- E, <- Zminus_mod. reflexivity.
Qed.

Lemma special_soundness_witness :
  recover_secret 11 2 7 3 5 = 9.
Proof.
  apply (special_soundness 89 11 2 9 67 1 2 7 3 5);
    try lia; try reflexivity.
  - apply (generate_parameters_in_valid 20 100 1 (const_rng 69) 89 11 2
             (advance (const_rng 69))).
    vm_compute. reflexivity.
  - vm_compute. discriminate.
Defined.

Lemma keygen_eval p q g st :
  2 ≤ q → p ≠ 0 →
  Setup.keygen p q g st
  = Ok ((draw 1 (q - 1) st, g ^ draw 1 (q - 1) st mod p), advance st).
Proof.
  intros Hq Hp. unfold Setup.keygen, mbind, M_bind.
  rewrite randint_draw by lia.
  pose proof (draw_range 1 (q - 1) st ltac:(lia)).
  rewrite py_pow_nonneg by lia. reflexivity.
Qed.

Lemma example_1_accepts p q g x st :
  valid_params p q g → 0 ≤ x →
  SigmaCells.example_1 p q g x (g ^ x mod p) st
  = Ok (true, advance (advance st)).
Proof.
  intros Hv Hx.
  pose proof (Z.prime_ge_2 _ (vp_prime_p _ _ _ Hv)) as Hp.
  pose proof (Z.prime_ge_2 _ (vp_prime_q _ _ _ Hv)) as Hq.
  destruct (vp_order _ _ _ Hv) as (_ & Hgq & _).
  pose proof (draw_range 0 (q - 1) st ltac:(lia)) as Hr.
  pose proof (draw_range 0 (q - 1) (advance st) ltac:(lia)) as Hc.
  unfold SigmaCells.example_1, Sigma.sigma_commit, mbind, M_bind, lift.
  rewrite randint_draw by lia.
  rewrite py_pow_nonneg by lia. cbn [mret M_ret].
  rewrite randint_draw by lia.
  unfold Sigma.sigma_response. rewrite py_mod_nonzero by lia.
  cbn [mbind result_bind mret result_ret].
  rewrite (honest_transcript_accepted p q g) by (assumption || lia).
  reflexivity.
Qed.

Lemma example_2_loop_accepts n p q g x st :
  valid_params p q g → 0 ≤ x →
  SigmaCells.example_2_loop n p q g x (g ^ x mod p) st
  = Ok (repeat true n, Nat.iter (2 * n) advance st).
Proof.
  intros Hv Hx. revert st. induction n as [|n IH]; intros st; [reflexivity|].
  pose proof (example_1_accepts p q g x st Hv Hx) as H1.
  unfold SigmaCells.example_1, mbind, M_bind in H1.
  cbn [SigmaCells.example_2_loop]. unfold mbind, M_bind.
  destruct (Sigma.sigma_commit p q g st) as [[[r t] st1]|e];
    [|discriminate].
  destruct (randint 0 (q - 1) st1) as [[c st2]|e]; [|discriminate].
  destruct (lift (Sigma.sigma_response q x r c) st2) as [[s st3]|e];
    [|discriminate].
  rewrite H1. rewrite IH. cbn [mret M_ret repeat]. f_equal. f_equal.
  replace (2 * S n)%nat with (S (S (2 * n))) by lia.
  cbn [Nat.iter]. now rewrite <- !Nat.iter_succ_r.
Qed.

Lemma schnorr_cells_same :
  SchnorrCells.example_1 = SigmaCells.example_1 ∧
  SchnorrCells.example_2 = SigmaCells.example_2 ∧
  SchnorrCells.example_3 = SigmaCells.example_3 ∧
  SchnorrCells.setup = SigmaCells.setup.
Proof. repeat split; reflexivity. Qed.

(** What the setup cell hands to the examples. *)
Lemma setup_sound fuel st p q g x y st1 :
  SigmaCells.setup fuel st = Ok (Some (p, q, g, x, y), st1) →
  valid_params p q g ∧ 1 ≤ x ≤ q - 1 ∧ y = g ^ x mod p.
Proof.
  unfold SigmaCells.setup, Sigma.generate_parameters, Sigma.keygen.
  unfold mbind at 1. unfold M_bind.
  destruct (Setup.generate_parameters_in 20 100 fuel st)
    as [[[[[p0 q0] g0]|] st0]|e] eqn:Hgen; try discriminate.
  apply generate_parameters_in_valid in Hgen.
  pose proof (Z.prime_ge_2 _ (vp_prime_p _ _ _ Hgen)) as Hp.
  pose proof (Z.prime_ge_2 _ (vp_prime_q _ _ _ Hgen)) as Hq.
  unfold mbind, M_bind. rewrite keygen_eval by lia.
  cbn [mret M_ret]. intros [= <- <- <- <- <- <-].
  pose proof (draw_range 1 (q0 - 1) st0 ltac:(lia)). auto.
Qed.

(** X5.  The cell "Example 3: Simulating a Cheating Prover", on a valid
    triple and a key [y = g^x mod p]: it reads three entropy words, raises
    nothing, and its result is [True] exactly when the response drawn at
    random equals [(fake_r + c*x) mod q]; the result is not [False] on
    every run.  The cell of [schnorr_2] is the same function. *)
Theorem cheating_prover_cell p q g x y st :
  valid_params p q g →
  0 ≤ x → py_pow g x p = Ok y →
  let fake_r := draw 0 (q - 1) st in
  let c := draw 0 (q - 1) (advance st) in
  let fake_s := draw 0 (q - 1) (advance (advance st)) in
  SigmaCells.example_3 p q g y st
  = Ok (fake_s =? (fake_r + c * x) mod q, advance (advance (advance st))) ∧
  SchnorrCells.example_3 p q g y st = SigmaCells.example_3 p q g y st.
Proof.
  intros Hv Hx Hy fake_r c fake_s. split; [|reflexivity].
  pose proof (Z.prime_ge_2 _ (vp_prime_p _ _ _ Hv)) as Hp.
  pose proof (Z.prime_ge_2 _ (vp_prime_q _ _ _ Hv)) as Hq.
  rewrite py_pow_nonneg in Hy by lia. injection Hy as <-.
  pose proof (draw_range 0 (q - 1) st ltac:(lia)) as Hr.
  pose proof (draw_range 0 (q - 1) (advance st) ltac:(lia)) as Hc.
  pose proof (draw_range 0 (q - 1) (advance (advance st)) ltac:(lia)) as Hs.
  unfold SigmaCells.example_3, mbind, M_bind, lift.
  rewrite randint_draw by lia. fold fake_r.
  rewrite py_pow_nonneg by (unfold fake_r; lia).
  rewrite randint_draw by lia. fold c.
  rewrite randint_draw by lia. fold fake_s.
  rewrite (sigma_verify_exponents p q g)
    by (assumption || unfold fake_r, c, fake_s; lia).
  rewrite (Z.mod_small fake_s q) by (unfold fake_s; lia).
  reflexivity.
Qed.

Lemma cheating_prover_cell_witness :
  SigmaCells.example_3 79 2 78 78 (const_rng 0)
  = Ok (true, advance (advance (advance (const_rng 0)))) ∧
  (let fake_r := draw 0 (2 - 1) (const_rng 0) in
   let c := draw 0 (2 - 1) (advance (const_rng 0)) in
   let fake_s := draw 0 (2 - 1) (advance (advance (const_rng 0))) in
   SigmaCells.example_3 79 2 78 78 (const_rng 0)
   = Ok (fake_s =? (fake_r + c * 1) mod 2,
         advance (advance (advance (const_rng 0)))) ∧
   SchnorrCells.example_3 79 2 78 78 (const_rng 0)
   = SigmaCells.example_3 79 2 78 78 (const_rng 0)).
Proof.
  split; [reflexivity|].
  apply (cheating_prover_cell 79 2 78 1 78 (const_rng 0)).
  - apply (generate_parameters_in_valid 20 100 1 (const_rng 59) 79 2 78
             (advance (const_rng 59))).
    vm_compute. reflexivity.
  - lia.
  - reflexivity.
Defined.

(** X6.  The honest cells.  Whatever the entropy, once the setup cell
    ([generate_parameters] then [keygen]) has returned, "Example 1" returns
    [True] and "Example 2" returns [True] in each of its three executions,
    from any state of the random source and without raising; the cells of
    [schnorr_2] are the same functions. *)
Theorem worked_examples_accept fuel st p q g x y st1 :
  SigmaCells.setup fuel st = Ok (Some (p, q, g, x, y), st1) →
  ∀ st2,
    SigmaCells.example_1 p q g x y st2 = Ok (true, advance (advance st2)) ∧
    SigmaCells.example_2 p q g x y st2
    = Ok ([true; true; true], Nat.iter 6 advance st2) ∧
    SchnorrCells.example_1 p q g x y st2
    = SigmaCells.example_1 p q g x y st2 ∧
    SchnorrCells.example_2 p q g x y st2
    = SigmaCells.example_2 p q g x y st2.
Proof.
  intros Hsetup st2.
  destruct (setup_sound _ _ _ _ _ _ _ _ Hsetup) as (Hv & Hx & ->).
  split; [apply example_1_accepts; [assumption|lia]|].
  split; [|split; reflexivity].
  unfold SigmaCells.example_2.
  rewrite example_2_loop_accepts by (assumption || lia). reflexivity.
Qed.

Lemma worked_examples_accept_witness :
  SigmaCells.setup 1 (const_rng 69)
  = Ok (Some (89, 11, 2, 10, 45), advance (advance (const_rng 69))) ∧
  ∀ st2,
    SigmaCells.example_1 89 11 2 10 45 st2
    = Ok (true, advance (advance st2)) ∧
    SigmaCells.example_2 89 11 2 10 45 st2
    = Ok ([true; true; true], Nat.iter 6 advance st2) ∧
    SchnorrCells.example_1 89 11 2 10 45 st2
    = SigmaCells.example_1 89 11 2 10 45 st2 ∧
    SchnorrCells.example_2 89 11 2 10 45 st2
    = SigmaCells.example_2 89 11 2 10 45 st2.
Proof.
  assert (H : SigmaCells.setup 1 (const_rng 69)
              = Ok (Some (89, 11, 2, 10, 45),
                    advance (advance (const_rng 69))))
    by (vm_compute; reflexivity).
  split; [exact H|].
  exact (worked_examples_accept 1 (const_rng 69) 89 11 2 10 45
           (advance (advance (const_rng 69))) H).
Defined.

(** X7.  Public keys.  On a valid triple, the public key [keygen] returns
    lies in [2..p-1] (it is neither 0 nor the identity 1), and two runs of
    [keygen] return the same public key exactly when they drew the same
    secret. *)
Theorem keygen_public_key_determines_secret
    p q g st1 x1 y1 st1' st2 x2 y2 st2' :
  valid_params p q g →
  Setup.keygen p q g st1 = Ok ((x1, y1), st1') →
  Setup.keygen p q g st2 = Ok ((x2, y2), st2') →
  2 ≤ y1 ≤ p - 1 ∧ (y1 = y2 ↔ x1 = x2).
Proof.
  intros Hv K1 K2.
  pose proof (Z.prime_ge_2 _ (vp_prime_p _ _ _ Hv)) as Hp.
  pose proof (Z.prime_ge_2 _ (vp_prime_q _ _ _ Hv)) as Hq.
  destruct (vp_order _ _ _ Hv) as (Hq0 & Hgq & Hord).
  rewrite keygen_eval in K1, K2 by lia.
  injection K1 as <- <- <-. injection K2 as <- <- <-.
  pose proof (draw_range 1 (q - 1) st1 ltac:(lia)) as Hx1.
  pose proof (draw_range 1 (q - 1) st2 ltac:(lia)) as Hx2.
  set (x1 := draw 1 (q - 1) st1) in *.
  set (x2 := draw 1 (q - 1) st2) in *.
  split.
  - pose proof (Z.mod_pos_bound (g ^ x1) p ltac:(lia)).
    assert (g ^ x1 mod p ≠ 1).
    { intros E. apply (Hord x1); [lia|]. red. now rewrite one_mod_p by lia. }
    assert (g ^ x1 mod p ≠ 0).
    { pose proof (subgroup_power_nonzero p q g x1 1 ltac:(lia) Hq0 Hgq
                    ltac:(lia) ltac:(lia)) as Hnz.
      rewrite Z.pow_1_r, Z.mod_mod in Hnz by lia. exact Hnz. }
    lia.
  - split; [|now intros ->].
    intros E. apply (pow_cong_iff p q g) in E; [|lia|apply Hv|lia|lia].
    rewrite !Z.mod_small in E by lia. exact E.
Qed.

Lemma keygen_public_key_determines_secret_witness :
  2 ≤ 67 ≤ 89 - 1 ∧ (67 = 45 ↔ 9 = 10).
Proof.
  apply (keygen_public_key_determines_secret 89 11 2
           (const_rng 8) 9 67 (advance (const_rng 8))
           (const_rng 9) 10 45 (advance (const_rng 9))).
  - apply (generate_parameters_in_valid 20 100 1 (const_rng 69) 89 11 2
             (advance (const_rng 69))).
    vm_compute. reflexivity.
  - reflexivity.
  - reflexivity.
Defined.

(** X8.  The verifiers read their arguments as residues.  On a valid triple
    and a key [y = g^x mod p], adding multiples of [q] to a non-negative
    challenge and response, or multiples of [p] to [g], [y] and the
    commitment [t], does not change the outcome of [sigma_verify]
    ([schnorr_verify] is the same check). *)
Theorem verify_reads_residues p q g x y t c s i j a b d :
  valid_params p q g →
  0 ≤ x → py_pow g x p = Ok y →
  0 ≤ c → 0 ≤ s → 0 ≤ i → 0 ≤ j →
  Sigma.sigma_verify p g y t (c + i * q) (s + j * q)
  = Sigma.sigma_verify p g y t c s ∧
  Sigma.sigma_verify p (g + a * p) (y + b * p) (t + d * p) c s
  = Sigma.sigma_verify p g y t c s ∧
  Schnorr.schnorr_verify p q g y t (c + i * q) (s + j * q)
  = Schnorr.schnorr_verify p q g y t c s.
Proof.
  intros Hv Hx Hy Hc Hs Hi Hj.
  pose proof (Z.prime_ge_2 _ (vp_prime_p _ _ _ Hv)) as Hp.
  pose proof (Z.prime_ge_2 _ (vp_prime_q _ _ _ Hv)) as Hq.
  destruct (vp_order _ _ _ Hv) as (Hq0 & Hgq & _).
  rewrite py_pow_nonneg in Hy by lia. injection Hy as <-.
  assert (Hp0 : 1 < p) by lia.
  assert (E1 : Sigma.sigma_verify p g (g ^ x mod p) t (c + i * q) (s + j * q)
               = Sigma.sigma_verify p g (g ^ x mod p) t c s).
  { rewrite !sigma_verify_eval by nia.
    rewrite <- (pow_exponent_mod p q g Hp0 Hq0 Hgq (s + j * q)) by nia.
    rewrite Z.mod_add by lia.
    rewrite (pow_exponent_mod p q g) by (assumption || lia).
    rewrite <- !Zpower_mod, <- !Z.pow_mul_r by nia.
    rewrite <- (pow_exponent_mod p q g Hp0 Hq0 Hgq (x * (c + i * q))) by nia.
    replace (x * (c + i * q)) with (x * c + x * i * q) by ring.
    rewrite Z.mod_add by lia.
    rewrite (pow_exponent_mod p q g) by (assumption || nia).
    reflexivity. }
  split; [exact E1|]. split; [|now rewrite !sigma_schnorr_verify_same].
  rewrite !sigma_verify_eval by lia.
  rewrite (Zpower_mod (g + a * p)), Z.mod_add, <- Zpower_mod by lia.
  rewrite (Zpower_mod (g ^ x mod p + b * p)), Z.mod_add, <- Zpower_mod by lia.
  rewrite <- (Z.mul_mod_idemp_l (t + d * p)), Z.mod_add, Z.mul_mod_idemp_l
    by lia.
  reflexivity.
Qed.

Lemma verify_reads_residues_witness :
  Sigma.sigma_verify 89 2 67 1 (2 + 1 * 11) (7 + 1 * 11)
  = Sigma.sigma_verify 89 2 67 1 2 7 ∧
  Sigma.sigma_verify 89 (2 + 1 * 89) (67 + 2 * 89) (1 + 3 * 89) 2 7
  = Sigma.sigma_verify 89 2 67 1 2 7 ∧
  Schnorr.schnorr_verify 89 11 2 67 1 (2 + 1 * 11) (7 + 1 * 11)
  = Schnorr.schnorr_verify 89 11 2 67 1 2 7.
Proof.
  apply (verify_reads_residues 89 11 2 9 67 1 2 7 1 1 1 2 3);
    try lia; try reflexivity.
  apply (generate_parameters_in_valid 20 100 1 (const_rng 69) 89 11 2
           (advance (const_rng 69))).
  vm_compute. reflexivity.
Defined.

(** *** The parameter search *)

(** Where the returned [p] comes from and what the search reads. *)
Lemma generate_parameters_in_draws lo hi fuel st p q g st' :
  Setup.generate_parameters_in lo hi fuel st = Ok (Some (p, q, g), st') →
  tape st' = tape st ∧
  (pos st < pos st' ≤ pos st + fuel)%nat ∧
  p = lo + tape st (pos st' - 1)%nat mod (hi - lo + 1) ∧
  lo ≤ p ≤ hi.
Proof.
  revert st. induction fuel as [|fuel IH]; intros st; cbn; [discriminate|].
  unfold mbind, M_bind, randint.
  destruct (Z.ltb_spec hi lo); [discriminate|].
  set (p0 := lo + tape st (pos st) mod (hi - lo + 1)).
  assert (Hnext :
    Setup.generate_parameters_in lo hi fuel (advance st)
    = Ok (Some (p, q, g), st') →
    tape st' = tape st ∧ (pos st < pos st' ≤ pos st + S fuel)%nat ∧
    p = lo + tape st (pos st' - 1)%nat mod (hi - lo + 1) ∧ lo ≤ p ≤ hi).
  { intros Hrec. destruct (IH _ Hrec) as (Ht & Hpos & Hp & Hr).
    change (tape (advance st)) with (tape st) in Ht, Hp.
    change (pos (advance st)) with (S (pos st)) in Hpos.
    split; [exact Ht|]. split; [lia|]. split; [exact Hp|exact Hr]. }
  unfold lift.
  destruct (Setup.trial_division p0) as [[|]|e]; try discriminate;
    [|exact Hnext].
  destruct (Setup.search_q p0 (py_range 2 p0)) as [[[q0 g0]|]|e];
    try discriminate; [|exact Hnext].
  cbn [mret M_ret]. intros [= <- <- <- <-].
  change (pos (advance st)) with (S (pos st)).
  change (tape (advance st)) with (tape st).
  replace (S (pos st) - 1)%nat with (pos st) by lia.
  pose proof (Z.mod_pos_bound (tape st (pos st)) (hi - lo + 1) ltac:(lia)).
  split; [reflexivity|]. split; [lia|]. split; [reflexivity|].
  unfold p0. lia.
Qed.

(** X9.  Size of the parameters and entropy read.  A triple returned by
    [generate_parameters] has [p] within the bounds of the draw (20..100 in
    [sigma_2] and [schnorr_2], 1000..10000 in [schnorr_3]) and
    [2 <= q <= p - 1]; [p] is the last value drawn; the search has read at
    least one and at most one entropy word per iteration, and nothing
    else changed. *)
Theorem generate_parameters_bounds lo hi fuel st p q g st' :
  Setup.generate_parameters_in lo hi fuel st = Ok (Some (p, q, g), st') →
  lo ≤ p ≤ hi ∧ 2 ≤ q ≤ p - 1 ∧
  tape st' = tape st ∧
  (pos st < pos st' ≤ pos st + fuel)%nat ∧
  p = lo + tape st (pos st' - 1)%nat mod (hi - lo + 1).
Proof.
  intros H.
  destruct (generate_parameters_in_draws _ _ _ _ _ _ _ _ H)
    as (Ht & Hpos & Hp & Hr).
  apply generate_parameters_in_sound in H.
  destruct H as (Hpp & Hpq & Hdiv & _).
  pose proof (Z.prime_ge_2 _ Hpp). pose proof (Z.prime_ge_2 _ Hpq).
  assert (q ≤ p - 1) by (apply Z.divide_pos_le; [lia|assumption]).
  repeat split; try assumption; lia.
Qed.

Lemma generate_parameters_bounds_witness :
  Setup.generate_parameters_in 20 100 5 (const_rng 17)
  = Ok (None, Nat.iter 5 advance (const_rng 17)) ∧
  (20 ≤ 89 ≤ 100 ∧ 2 ≤ 11 ≤ 89 - 1 ∧
   tape (advance (const_rng 69)) = tape (const_rng 69) ∧
   (pos (const_rng 69) < pos (advance (const_rng 69))
    ≤ pos (const_rng 69) + 5)%nat ∧
   89 = 20 + tape (const_rng 69) (pos (advance (const_rng 69)) - 1)%nat
             mod (100 - 20 + 1)).
Proof.
  split; [vm_compute; reflexivity|].
  apply (generate_parameters_bounds 20 100 5 (const_rng 69) 89 11 2
           (advance (const_rng 69))).
  vm_compute. reflexivity.
Defined.

(** X10.  In a triple returned by [generate_parameters], [q] divides
    [p - 1] exactly once: [q * q] does not divide [p - 1]. *)
Theorem generate_parameters_q_exact lo hi fuel st p q g st' :
  Setup.generate_parameters_in lo hi fuel st = Ok (Some (p, q, g), st') →
  (q | p - 1) ∧ ¬ (q * q | p - 1).
Proof.
  intros H. apply generate_parameters_in_sound in H.
  destruct H as (Hpp & Hpq & Hdiv & Hg & H1 & H2).
  pose proof (Z.prime_ge_2 _ Hpp). pose proof (Z.prime_ge_2 _ Hpq).
  split; [assumption|].
  intros [k Hk]. apply H2.
  assert (Hquot : (p - 1) / q = q * k).
  { rewrite Hk. replace (k * (q * q)) with (q * k * q) by ring.
    apply Z.div_mul. lia. }
  rewrite Hquot.
  apply (pow_mul_order p q g);
    [lia|lia|red; rewrite H1; symmetry; apply one_mod_p; lia|nia].
Qed.

Lemma generate_parameters_q_exact_witness :
  (3 | 97 - 1) ∧ ¬ (3 * 3 | 97 - 1).
Proof.
  apply (generate_parameters_q_exact 20 100 1 (const_rng 77) 97 3 35
           (advance (const_rng 77))).
  vm_compute. reflexivity.
Defined.

Lemma py_all_intro f l :
  (∀ i, In i l → f i = Ok true) → py_all f l = Ok true.
Proof.
  induction l as [|j l IH]; cbn; intros Hf; [reflexivity|].
  rewrite (Hf j) by auto. cbn. apply IH. auto.
Qed.

(** Trial division accepts every prime. *)
Lemma trial_division_complete n :
  Z.prime n → Setup.trial_division n = Ok true.
Proof.
  intros [Hn Hdiv]. unfold Setup.trial_division, py_isqrt.
  destruct (Z.ltb_spec n 0); [lia|]. cbn.
  apply py_all_intro. intros i Hi%in_py_range.
  rewrite py_mod_nonzero by lia. cbn. f_equal.
  apply negb_true_iff, Z.eqb_neq. intros Hz.
  pose proof (Z.sqrt_lt_lin n Hn).
  apply (Hdiv i); [lia|]. apply Z.mod_divide; [lia|assumption].
Qed.

Lemma py_range_length a b : length (py_range a b) = Z.to_nat (b - a).
Proof. unfold py_range. now rewrite length_map, length_seq. Qed.

Lemma py_range_nth a b j :
  (j < Z.to_nat (b - a))%nat → nth j (py_range a b) 0 = a + Z.of_nat j.
Proof.
  intros Hj. unfold py_range.
  rewrite (nth_indep _ 0 (a + Z.of_nat 0)) by (now rewrite length_map, length_seq).
  rewrite (map_nth (λ i, a + Z.of_nat i)). now rewrite seq_nth.
Qed.

(** [range(a, b)] is increasing: what is below an element comes before
    it. *)
Lemma py_range_before a b l1 x l2 y :
  py_range a b = l1 ++ x :: l2 → a ≤ y < x → In y l1.
Proof.
  intros Hsplit Hy.
  pose proof (py_range_length a b) as Hlen.
  rewrite Hsplit, length_app in Hlen. cbn in Hlen.
  assert (Hx : x = a + Z.of_nat (length l1)).
  { rewrite <- (py_range_nth a b) by lia.
    rewrite Hsplit, app_nth2, Nat.sub_diag by lia. reflexivity. }
  assert (Hk : (Z.to_nat (y - a) < length l1)%nat) by lia.
  replace y with (nth (Z.to_nat (y - a)) l1 0); [now apply nth_In|].
  rewrite <- (app_nth1 l1 (x :: l2)) by assumption.
  rewrite <- Hsplit, py_range_nth by lia. lia.
Qed.

Lemma py_range_cons a b : a < b → py_range a b = a :: py_range (a + 1) b.
Proof.
  intros Hab. unfold py_range.
  replace (Z.to_nat (b - a)) with (S (Z.to_nat (b - (a + 1)))) by lia.
  cbn [seq map]. f_equal; [lia|].
  rewrite <- seq_shift, map_map. apply map_ext. intros i. lia.
Qed.

Lemma py_range_snoc a b : a ≤ b → py_range a (b + 1) = py_range a b ++ [b].
Proof.
  intros Hab. unfold py_range.
  replace (Z.to_nat (b + 1 - a)) with (S (Z.to_nat (b - a))) by lia.
  rewrite seq_S, map_app. cbn. do 2 f_equal. lia.
Qed.

(** The step of the innermost loop on a candidate [g0]. *)
Lemma search_g_cons p q g0 gs :
  1 < p → 0 < q →
  Setup.search_g p q (g0 :: gs)
  = if (g0 ^ q mod p =? 1) && negb (g0 ^ ((p - 1) / q) mod p =? 1)
    then Ok (Some g0) else Setup.search_g p q gs.
Proof.
  intros Hp Hq.
  assert (Hdiv : 0 ≤ (p - 1) / q) by (apply Z.div_pos; lia).
  cbn [Setup.search_g]. rewrite py_pow_nonneg by lia. cbn.
  destruct (g0 ^ q mod p =? 1); cbn; [|reflexivity].
  rewrite py_floordiv_nonzero by lia. cbn.
  rewrite py_pow_nonneg by lia. cbn.
  now destruct (g0 ^ ((p - 1) / q) mod p =? 1).
Qed.

Lemma passes_tests_spec p q g :
  (g ^ q mod p =? 1) && negb (g ^ ((p - 1) / q) mod p =? 1) = true
  ↔ passes_tests p q g.
Proof.
  unfold passes_tests.
  rewrite andb_true_iff, negb_true_iff, Z.eqb_eq, Z.eqb_neq. reflexivity.
Qed.

(** The innermost loop returns the first candidate that passes. *)
Lemma search_g_prefix p q gs g :
  1 < p → 0 < q →
  Setup.search_g p q gs = Ok (Some g) →
  ∃ l1 l2, gs = l1 ++ g :: l2 ∧ ∀ g', In g' l1 → ¬ passes_tests p q g'.
Proof.
  intros Hp Hq. induction gs as [|g0 gs IH]; [discriminate|].
  rewrite search_g_cons by assumption.
  destruct ((g0 ^ q mod p =? 1) && negb (g0 ^ ((p - 1) / q) mod p =? 1))
    eqn:Htest.
  - intros [= <-]. exists [], gs. split; [reflexivity|]. intros ? [].
  - intros Hs. destruct (IH Hs) as (l1 & l2 & -> & Hl1).
    exists (g0 :: l1), l2. split; [reflexivity|].
    intros g' [<-|Hin]; [|auto].
    rewrite <- passes_tests_spec, Htest. discriminate.
Qed.

Lemma search_g_none p q gs :
  1 < p → 0 < q →
  Setup.search_g p q gs = Ok None →
  ∀ g', In g' gs → ¬ passes_tests p q g'.
Proof.
  intros Hp Hq. induction gs as [|g0 gs IH]; [intros _ ? []|].
  rewrite search_g_cons by assumption.
  destruct ((g0 ^ q mod p =? 1) && negb (g0 ^ ((p - 1) / q) mod p =? 1))
    eqn:Htest; [discriminate|].
  intros Hs g' [<-|Hin]; [|auto].
  rewrite <- passes_tests_spec, Htest. discriminate.
Qed.

(** The loop over [q] returns the first prime divisor of [p - 1] for which
    the innermost loop finds a [g]. *)
Lemma search_q_prefix p qs q g :
  (∀ q', In q' qs → 2 ≤ q' < p) →
  Setup.search_q p qs = Ok (Some (q, g)) →
  Setup.search_g p q (py_range 2 p) = Ok (Some g) ∧
  ∃ l1 l2, qs = l1 ++ q :: l2 ∧
    ∀ q', In q' l1 → (q' | p - 1) → Z.prime q' →
          ∀ g', 2 ≤ g' < p → ¬ passes_tests p q' g'.
Proof.
  induction qs as [|q0 qs IH]; cbn [Setup.search_q]; intros Hqs Hs;
    [discriminate|].
  assert (Hq0 : 2 ≤ q0 < p) by (apply Hqs; left; reflexivity).
  assert (Hrest : ∀ q', In q' qs → 2 ≤ q' < p)
    by (intros; apply Hqs; right; assumption).
  assert (Hskip :
    Setup.search_q p qs = Ok (Some (q, g)) →
    (∀ g', 2 ≤ g' < p → (q0 | p - 1) → Z.prime q0 →
           ¬ passes_tests p q0 g') →
    Setup.search_g p q (py_range 2 p) = Ok (Some g) ∧
    ∃ l1 l2, q0 :: qs = l1 ++ q :: l2 ∧
      ∀ q', In q' l1 → (q' | p - 1) → Z.prime q' →
            ∀ g', 2 ≤ g' < p → ¬ passes_tests p q' g').
  { intros Hrec Hfail.
    destruct (IH Hrest Hrec) as (Hg & l1 & l2 & -> & Hl1).
    split; [exact Hg|]. exists (q0 :: l1), l2. split; [reflexivity|].
    intros q' [<-|Hin] Hd Hpr g' Hg'; [now apply Hfail|eauto]. }
  rewrite py_mod_nonzero in Hs by lia. cbn in Hs.
  destruct (Z.eqb_spec ((p - 1) mod q0) 0) as [Hd|Hd]; cbn in Hs.
  2:{ apply Hskip; [assumption|]. intros g' _ Hdv _. exfalso. apply Hd.
      apply Z.mod_divide; [lia|assumption]. }
  destruct (Setup.trial_division q0) as [[|]|e] eqn:Htd; cbn in Hs;
    try discriminate.
  2:{ apply Hskip; [assumption|]. intros g' _ _ Hpr. exfalso.
      rewrite (trial_division_complete q0 Hpr) in Htd. discriminate. }
  destruct (Setup.search_g p q0 (py_range 2 p)) as [[g0|]|e] eqn:Hg;
    cbn in Hs; try discriminate.
  - injection Hs as <- <-. split; [exact Hg|].
    exists [], qs. split; [reflexivity|]. intros ? [].
  - apply Hskip; [assumption|]. intros g' Hg' _ _.
    apply (search_g_none p q0 (py_range 2 p)); try (assumption || lia).
    apply in_py_range. lia.
Qed.

(** The triple comes from the loop over [q] run on the returned [p]. *)
Lemma generate_parameters_in_search lo hi fuel st p q g st' :
  Setup.generate_parameters_in lo hi fuel st = Ok (Some (p, q, g), st') →
  Setup.search_q p (py_range 2 p) = Ok (Some (q, g)).
Proof.
  revert st. induction fuel as [|fuel IH]; intros st; cbn; [discriminate|].
  unfold mbind, M_bind, randint.
  destruct (Z.ltb_spec hi lo); [discriminate|].
  set (p0 := lo + tape st (pos st) mod (hi - lo + 1)).
  unfold lift.
  destruct (Setup.trial_division p0) as [[|]|e]; try discriminate;
    [|apply IH].
  destruct (Setup.search_q p0 (py_range 2 p0)) as [[[q0 g0]|]|e] eqn:Hq;
    try discriminate; [|apply IH].
  cbn. now intros [= <- <- <- <-].
Qed.

(** X11.  First match.  In a triple returned by [generate_parameters], [g]
    is the least element of [2..p-1] that passes both tests for [q], and
    no prime [q' < q] dividing [p - 1] has an element of [2..p-1] that
    passes them: the answer is determined by [p]. *)
Theorem generate_parameters_first_match lo hi fuel st p q g st' :
  Setup.generate_parameters_in lo hi fuel st = Ok (Some (p, q, g), st') →
  passes_tests p q g ∧
  (∀ g', 2 ≤ g' < g → ¬ passes_tests p q g') ∧
  (∀ q' g', 2 ≤ q' < q → (q' | p - 1) → Z.prime q' → 2 ≤ g' < p →
            ¬ passes_tests p q' g').
Proof.
  intros H.
  pose proof (generate_parameters_in_sound _ _ _ _ _ _ _ _ H)
    as (Hpp & Hpq & _ & _ & H1 & H2).
  pose proof (Z.prime_ge_2 _ Hpp). pose proof (Z.prime_ge_2 _ Hpq).
  apply generate_parameters_in_search in H.
  apply search_q_prefix in H; [|intros ? ?%in_py_range; lia].
  destruct H as (Hg & l1 & l2 & Hsplit & Hl1).
  apply search_g_prefix in Hg; [|lia..].
  destruct Hg as (k1 & k2 & Hgsplit & Hk1).
  split; [split; assumption|]. split.
  - intros g' Hg'. apply Hk1.
    apply (py_range_before 2 p k1 g k2); assumption.
  - intros q' g' Hq' Hd Hpr Hg'. apply (Hl1 q'); try assumption.
    apply (py_range_before 2 p l1 q l2); assumption.
Qed.

Lemma generate_parameters_first_match_witness :
  passes_tests 97 3 35 ∧
  (∀ g', 2 ≤ g' < 35 → ¬ passes_tests 97 3 g') ∧
  (∀ q' g', 2 ≤ q' < 3 → (q' | 97 - 1) → Z.prime q' → 2 ≤ g' < 97 →
            ¬ passes_tests 97 q' g').
Proof.
  apply (generate_parameters_first_match 20 100 1 (const_rng 77) 97 3 35
           (advance (const_rng 77))).
  vm_compute. reflexivity.
Defined.

(** [lia] after the quotients and remainders are replaced by their
    defining equations. *)
Ltac lia_div := Z.to_euclidean_division_equations; lia.

(** Modulo a prime, only 1 and [p - 1] square to 1. *)
Lemma square_not_one p g :
  Z.prime p → 2 ≤ g ≤ p - 2 → g ^ 2 mod p ≠ 1.
Proof.
  intros Hp Hg H1. pose proof (Z.prime_ge_2 _ Hp).
  assert (Hdiv : (p | (g - 1) * (g + 1))).
  { apply Z.mod_divide; [lia|].
    replace ((g - 1) * (g + 1)) with (g ^ 2 - 1) by (rewrite Z.pow_2_r; ring).
    rewrite Zminus_mod, H1, Z.mod_1_l by lia. reflexivity. }
  apply (Z.divide_prime_mul _ _ _ Hp) in Hdiv.
  destruct Hdiv as [Hd|Hd]; apply Z.divide_pos_le in Hd; lia.
Qed.

Lemma minus_one_odd_power p m :
  2 < p → 0 ≤ m → (p - 1) ^ (2 * m + 1) mod p = p - 1.
Proof.
  intros Hp Hm.
  assert (Hsq : (p - 1) ^ 2 mod p = 1).
  { replace ((p - 1) ^ 2) with (1 + (p - 2) * p) by (rewrite Z.pow_2_r; ring).
    rewrite Z.mod_add by lia. apply Z.mod_small. lia. }
  rewrite Z.pow_add_r, Z.pow_1_r, Z.pow_mul_r by lia.
  rewrite Z.mul_mod, Zpower_mod, Hsq, Z.pow_1_l by lia.
  rewrite (Z.mod_small 1), Z.mul_1_l, Z.mod_mod by lia.
  apply Z.mod_small. lia.
Qed.

Lemma search_g_skip p q l1 l2 :
  1 < p → 0 < q →
  (∀ g, In g l1 → ¬ passes_tests p q g) →
  Setup.search_g p q (l1 ++ l2) = Setup.search_g p q l2.
Proof.
  intros Hp Hq. induction l1 as [|g l1 IH]; intros Hfail; [reflexivity|].
  cbn [app]. rewrite search_g_cons by assumption.
  destruct ((g ^ q mod p =? 1) && negb (g ^ ((p - 1) / q) mod p =? 1))
    eqn:Htest.
  - exfalso. apply (Hfail g); [now left|]. now apply passes_tests_spec.
  - apply IH. intros g' Hin. apply Hfail. now right.
Qed.

(** For a prime [p ≡ 3 (mod 4)] the loop over [q] stops at [q = 2] with
    [g = p - 1]. *)
Lemma search_q_three_mod_four p :
  Z.prime p → p mod 4 = 3 →
  Setup.search_q p (py_range 2 p) = Ok (Some (2, p - 1)).
Proof.
  intros Hp H4. pose proof (Z.prime_ge_2 _ Hp).
  assert (Hp3 : 3 ≤ p) by lia_div.
  assert (Hm : 0 ≤ p / 4) by lia_div.
  assert (Hg : Setup.search_g p 2 (py_range 2 p) = Ok (Some (p - 1))).
  { replace p with (p - 1 + 1) at 2 by lia.
    rewrite py_range_snoc by lia.
    rewrite search_g_skip; [|lia|lia|].
    - rewrite search_g_cons by lia.
      assert (Hsq : (p - 1) ^ 2 mod p = 1).
      { replace ((p - 1) ^ 2) with (1 + (p - 2) * p)
          by (rewrite Z.pow_2_r; ring).
        rewrite Z.mod_add by lia. apply Z.mod_small. lia. }
      rewrite Hsq.
      replace ((p - 1) / 2) with (2 * (p / 4) + 1) by lia_div.
      rewrite (minus_one_odd_power p (p / 4)) by lia.
      destruct (Z.eqb_spec (p - 1) 1); [lia|]. reflexivity.
    - intros g Hin%in_py_range [Hsq _].
      apply (square_not_one p g); (assumption || lia). }
  rewrite py_range_cons by lia. cbn [Setup.search_q].
  rewrite py_mod_nonzero by lia. cbn.
  replace ((p - 1) mod 2) with 0 by lia_div. cbn.
  replace (Setup.trial_division 2) with (@Ok bool true) by reflexivity.
  cbn. rewrite Hg. reflexivity.
Qed.

(** X12.  A two-element challenge space.  Whenever the value drawn for [p]
    is a prime with [p ≡ 3 (mod 4)], [generate_parameters] returns at once
    with [q = 2] and [g = p - 1]. *)
Theorem generate_parameters_three_mod_four lo hi fuel st :
  lo ≤ hi →
  Z.prime (draw lo hi st) →
  draw lo hi st mod 4 = 3 →
  Setup.generate_parameters_in lo hi (S fuel) st
  = Ok (Some (draw lo hi st, 2, draw lo hi st - 1), advance st).
Proof.
  intros Hlohi Hp H4. cbn [Setup.generate_parameters_in].
  unfold mbind, M_bind. rewrite randint_draw by assumption.
  unfold lift. rewrite (trial_division_complete _ Hp).
  rewrite (search_q_three_mod_four _ Hp H4). reflexivity.
Qed.

Lemma generate_parameters_three_mod_four_witness :
  draw 1000 10000 (const_rng 19) = 1019 ∧
  Setup.generate_parameters_in 1000 10000 (S 0) (const_rng 19)
  = Ok (Some (draw 1000 10000 (const_rng 19), 2,
              draw 1000 10000 (const_rng 19) - 1),
        advance (const_rng 19)).
Proof.
  split; [reflexivity|].
  apply (generate_parameters_three_mod_four 1000 10000 0 (const_rng 19)).
  - lia.
  - apply trial_division_prime; [vm_compute; discriminate|].
    vm_compute. reflexivity.
  - reflexivity.
Defined.

(** *** The file-possession cells *)



(** X14.  The "Example usage" cell of the prover without a stored hash:
    once the cell has returned, [is_valid] is [True], and the proof it
    printed is accepted by that cell's [schnorr_verify] on every file
    content, under the parameters [generate_parameters] returned to the
    cell. *)
Theorem forensics_cell_accepts_any_content fuel C st proof is_valid st' :
  Schnorr3Cells.forensics_cell fuel C st
  = Ok (Some (proof, is_valid), st') →
  is_valid = true ∧
  ∃ p q g st0,
    Schnorr3.generate_parameters fuel st = Ok (Some (p, q, g), st0) ∧
    ∀ C', Schnorr3.Forensics.schnorr_verify proof C' p q g = Ok true.
Proof.
  unfold Schnorr3Cells.forensics_cell, Schnorr3.generate_parameters,
    Schnorr3.keygen.
  unfold mbind at 1. unfold M_bind.
  destruct (Setup.generate_parameters_in 1000 10000 fuel st)
    as [[[[[p q] g]|] st0]|e] eqn:Hgen; try discriminate.
  assert (Hlim : p ≤ str_limit).
  { pose proof (generate_parameters_in_draws _ _ _ _ _ _ _ _ Hgen)
      as (_ & _ & _ & Hr).
    pose proof notebook_bound_below_str_limit. lia. }
  pose proof (generate_parameters_in_valid _ _ _ _ _ _ _ _ Hgen) as Hv.
  pose proof (Z.prime_ge_2 _ (vp_prime_p _ _ _ Hv)) as Hp.
  pose proof (Z.prime_ge_2 _ (vp_prime_q _ _ _ Hv)) as Hq.
  unfold mbind at 1. unfold M_bind. rewrite keygen_eval by lia.
  set (x := draw 1 (q - 1) st0).
  assert (Hx : 0 ≤ x) by (pose proof (draw_range 1 (q - 1) st0); lia).
  destruct (forensics_accepts_every_content C C p q g x (advance st0)
              Hv Hlim Hx) as (P & HP & HV).
  unfold mbind at 1. unfold M_bind. rewrite HP.
  unfold mbind, M_bind, lift. rewrite HV. cbn [mret M_ret].
  intros [= <- <- <-]. split; [reflexivity|].
  exists p, q, g, st0. split; [reflexivity|]. intros C'.
  destruct (forensics_accepts_every_content C C' p q g x (advance st0)
              Hv Hlim Hx) as (P' & HP' & HV').
  rewrite HP in HP'. now injection HP' as <-.
Qed.

Lemma forensics_cell_accepts_any_content_witness :
  ∃ proof st',
    Schnorr3Cells.forensics_cell 1
      (py_encode "Confidential forensic evidence") (const_rng 19)
    = Ok (Some (proof, true), st') ∧
    true = true ∧
    ∃ p q g st0,
      Schnorr3.generate_parameters 1 (const_rng 19)
      = Ok (Some (p, q, g), st0) ∧
      ∀ C', Schnorr3.Forensics.schnorr_verify proof C' p q g = Ok true.
Proof.
  assert (H : ∃ proof st',
             Schnorr3Cells.forensics_cell 1
               (py_encode "Confidential forensic evidence") (const_rng 19)
             = Ok (Some (proof, true), st')).
  { unfold Schnorr3Cells.forensics_cell, Schnorr3.generate_parameters,
      Schnorr3.keygen.
    unfold mbind at 1. unfold M_bind.
    replace (Setup.generate_parameters_in 1000 10000 1 (const_rng 19))
      with (@Ok (option (Z * Z * Z) * rng)
              (Some (1019, 2, 1018), advance (const_rng 19)))
      by (vm_compute; reflexivity).
    unfold mbind at 1. unfold M_bind. rewrite keygen_eval by lia.
    assert (Hv : valid_params 1019 2 1018).
    { apply (generate_parameters_in_valid 1000 10000 1 (const_rng 19)
               1019 2 1018 (advance (const_rng 19))).
      vm_compute. reflexivity. }
    assert (Hlim : 1019 ≤ str_limit)
      by (pose proof notebook_bound_below_str_limit; lia).
    destruct (forensics_accepts_every_content
                (py_encode "Confidential forensic evidence")
                (py_encode "Confidential forensic evidence")
                1019 2 1018 (draw 1 (2 - 1) (advance (const_rng 19)))
                (advance (advance (const_rng 19))) Hv Hlim)
      as (P & HP & HV).
    { pose proof (draw_range 1 (2 - 1) (advance (const_rng 19))). lia. }
    unfold mbind at 1. unfold M_bind. rewrite HP.
    unfold mbind, M_bind, lift. rewrite HV. cbn [mret M_ret]. eauto. }
  destruct H as (proof & st' & H).
  exists proof, st'. split; [exact H|].
  exact (forensics_cell_accepts_any_content 1 _ (const_rng 19) proof true
           st' H).
Defined.

(** A proof made by the prover without a stored hash has no ['hash']
    entry. *)
Lemma forensics_prove_no_hash C p q g x st P st' :
  Schnorr3.Forensics.schnorr_prove C p q g x st = Ok (P, st') →
  P !! "hash" = None.
Proof.
  unfold Schnorr3.Forensics.schnorr_prove, mbind, M_bind, lift.
  destruct (Schnorr3.hash_mod C q) as [h|e]; [|discriminate].
  destruct (randint 0 (q - 1) st) as [[r st1]|e]; [|discriminate].
  destruct (py_pow g r p) as [t|e]; [|discriminate].
  destruct (Schnorr3.challenge_bytes t h) as [hashed|e]; [|discriminate].
  destruct (Schnorr3.hash_mod hashed q) as [c|e]; [|discriminate].
  destruct (py_mod (r + c * x) q) as [s|e]; [|discriminate].
  destruct (py_pow g x p) as [y|e]; [|discriminate].
  cbn [mret M_ret]. intros [= <- <-]. now simplify_map_eq.
Qed.

(** X15.  Order of the checks of the hash-checking [schnorr_verify], on any
    dictionary.  A zero [q] raises [ZeroDivisionError].  Otherwise a
    dictionary without ['hash'] raises [KeyError], in particular every
    proof made by the earlier cell's [schnorr_prove]; a stored hash that
    differs from the recomputed one gives [False] whatever else the
    dictionary holds or lacks; and with a matching hash a missing
    ['commitment'], ['challenge'], ['response'] or ['public_value'] raises
    [KeyError]. *)
Theorem tamper_verify_checks_in_order (proof : gmap string Z) C p q g :
  q ≠ 0 →
  Schnorr3.Tamper.schnorr_verify proof C p 0 g = Raise ZeroDivisionError ∧
  (proof !! "hash" = None →
     Schnorr3.Tamper.schnorr_verify proof C p q g = Raise KeyError) ∧
  (∀ h, proof !! "hash" = Some h → h ≠ hash_int C mod q →
     Schnorr3.Tamper.schnorr_verify proof C p q g = Ok false) ∧
  (proof !! "hash" = Some (hash_int C mod q) →
   proof !! "commitment" = None ∨ proof !! "challenge" = None ∨
   proof !! "response" = None ∨ proof !! "public_value" = None →
     Schnorr3.Tamper.schnorr_verify proof C p q g = Raise KeyError) ∧
  (∀ C0 x st P st',
     Schnorr3.Forensics.schnorr_prove C0 p q g x st = Ok (P, st') →
     Schnorr3.Tamper.schnorr_verify P C p q g = Raise KeyError).
Proof.
  intros Hq.
  assert (Hnone : ∀ P : gmap string Z, P !! "hash" = None →
            Schnorr3.Tamper.schnorr_verify P C p q g = Raise KeyError).
  { intros P HP. unfold Schnorr3.Tamper.schnorr_verify.
    rewrite hash_mod_eval by assumption.
    unfold py_getitem. rewrite HP. reflexivity. }
  split; [reflexivity|]. split; [apply Hnone|]. split; [|split].
  - intros h Hh Hne. unfold Schnorr3.Tamper.schnorr_verify.
    rewrite hash_mod_eval by assumption.
    unfold py_getitem. rewrite Hh. cbn.
    destruct (Z.eqb_spec (hash_int C mod q) h); [congruence|reflexivity].
  - intros Hh Hmiss. unfold Schnorr3.Tamper.schnorr_verify.
    rewrite hash_mod_eval by assumption.
    unfold py_getitem. rewrite Hh. cbn. rewrite Z.eqb_refl. cbn.
    destruct (proof !! "commitment") as [t|]; [|reflexivity].
    destruct (proof !! "challenge") as [c|]; [|reflexivity].
    destruct (proof !! "response") as [s|]; [|reflexivity].
    destruct (proof !! "public_value") as [y|]; [|reflexivity].
    destruct Hmiss as [H|[H|[H|H]]]; discriminate.
  - intros C0 x st P st' HP. apply Hnone.
    eapply forensics_prove_no_hash. exact HP.
Qed.

Lemma tamper_verify_checks_in_order_witness :
  Schnorr3.Tamper.schnorr_verify {["hash" := 5]} (py_encode "abc") 89 11 2
  = Ok false ∧
  Schnorr3.Tamper.schnorr_verify {["hash" := 7]} (py_encode "abc") 89 11 2
  = Raise KeyError ∧
  (Schnorr3.Tamper.schnorr_verify ∅ (py_encode "abc") 89 0 2
   = Raise ZeroDivisionError ∧
   ((∅ : gmap string Z) !! "hash" = None →
      Schnorr3.Tamper.schnorr_verify ∅ (py_encode "abc") 89 11 2
      = Raise KeyError) ∧
   (∀ h, (∅ : gmap string Z) !! "hash" = Some h →
      h ≠ hash_int (py_encode "abc") mod 11 →
      Schnorr3.Tamper.schnorr_verify ∅ (py_encode "abc") 89 11 2
      = Ok false) ∧
   ((∅ : gmap string Z) !! "hash"
    = Some (hash_int (py_encode "abc") mod 11) →
    (∅ : gmap string Z) !! "commitment" = None ∨
    (∅ : gmap string Z) !! "challenge" = None ∨
    (∅ : gmap string Z) !! "response" = None ∨
    (∅ : gmap string Z) !! "public_value" = None →
      Schnorr3.Tamper.schnorr_verify ∅ (py_encode "abc") 89 11 2
      = Raise KeyError) ∧
   (∀ C0 x st P st',
      Schnorr3.Forensics.schnorr_prove C0 89 11 2 x st = Ok (P, st') →
      Schnorr3.Tamper.schnorr_verify P (py_encode "abc") 89 11 2
      = Raise KeyError)).
Proof.
  split; [vm_compute; reflexivity|]. split; [vm_compute; reflexivity|].
  apply (tamper_verify_checks_in_order ∅ (py_encode "abc") 89 11 2).
  lia.
Defined.

(** The hash-storing prover up to the conversion of the commitment and the
    hash to strings. *)
Lemma tamper_prove_steps C p q g x st :
  1 ≤ q → 1 ≤ p → 0 ≤ x →
  let h := hash_int C mod q in
  let r := draw 0 (q - 1) st in
  let t := g ^ r mod p in
  Schnorr3.Tamper.schnorr_prove C p q g x st
  = match Schnorr3.challenge_bytes t h with
    | Ok hashed =>
        let c := hash_int hashed mod q in
        Ok (proof_dict t c ((r + c * x) mod q) (g ^ x mod p) h, advance st)
    | Raise e => Raise e
    end.
Proof.
  intros Hq Hp Hx h r t.
  unfold Schnorr3.Tamper.schnorr_prove, mbind, M_bind, lift.
  rewrite hash_mod_eval by lia. rewrite randint_draw by lia.
  pose proof (draw_range 0 (q - 1) st ltac:(lia)) as Hr.
  fold r. fold r in Hr. rewrite py_pow_nonneg by lia. fold h t.
  destruct (Schnorr3.challenge_bytes t h) as [hashed|e]; [|reflexivity].
  rewrite hash_mod_eval by lia.
  rewrite py_mod_nonzero by lia.
  rewrite py_pow_nonneg by lia. reflexivity.
Qed.

(** X16.  The hash-storing [schnorr_prove] with [x >= 0].  A zero [q]
    raises [ZeroDivisionError] and a negative [q], or a zero [p] with
    [q >= 1], raises [ValueError], without a proof.  With [p >= 1] and
    [q >= 1] it reads one entropy word; when the commitment [t] or the hash
    [h] has more than 4300 decimal digits the call of [str] raises
    [ValueError]; otherwise it returns a dictionary of exactly five
    residues: commitment and public value in [0..p-1], challenge, response
    and hash in [0..q-1], the hash being that of the content and the
    challenge the hash of the decimal strings of commitment and hash, both
    reduced modulo [q]. *)
Theorem tamper_prove_contract C p q g x st :
  0 ≤ x →
  Schnorr3.Tamper.schnorr_prove C p 0 g x st = Raise ZeroDivisionError ∧
  (q < 0 → Schnorr3.Tamper.schnorr_prove C p q g x st = Raise ValueError) ∧
  (1 ≤ q → Schnorr3.Tamper.schnorr_prove C 0 q g x st = Raise ValueError) ∧
  (1 ≤ q → 1 ≤ p →
   let h := hash_int C mod q in
   let r := draw 0 (q - 1) st in
   let t := g ^ r mod p in
   (str_limit ≤ t ∨ str_limit ≤ h →
      Schnorr3.Tamper.schnorr_prove C p q g x st = Raise ValueError) ∧
   (t < str_limit → h < str_limit →
    ∃ c s y,
      Schnorr3.Tamper.schnorr_prove C p q g x st
      = Ok (proof_dict t c s y h, advance st) ∧
      dom (proof_dict t c s y h)
      = ({["commitment"; "challenge"; "response"; "public_value"; "hash"]}
         : gset string) ∧
      0 ≤ r ≤ q - 1 ∧
      0 ≤ t < p ∧ 0 ≤ y < p ∧ 0 ≤ c < q ∧ 0 ≤ s < q ∧ 0 ≤ h < q ∧
      c = hash_int (Schnorr3.challenge_input t h) mod q ∧
      s = (r + c * x) mod q ∧
      y = g ^ x mod p)).
Proof.
  intros Hx. split; [reflexivity|]. split; [|split].
  - intros Hq.
    unfold Schnorr3.Tamper.schnorr_prove, mbind, M_bind, lift.
    rewrite hash_mod_eval by lia. now rewrite randint_empty by lia.
  - intros Hq.
    unfold Schnorr3.Tamper.schnorr_prove, mbind, M_bind, lift.
    rewrite hash_mod_eval by lia. now rewrite randint_draw by lia.
  - intros Hq Hp h r t.
    pose proof (tamper_prove_steps C p q g x st Hq Hp Hx) as Hsteps.
    cbv zeta in Hsteps. fold h r t in Hsteps.
    pose proof (Z.mod_pos_bound (hash_int C) q ltac:(lia)) as Hh.
    pose proof (Z.mod_pos_bound (g ^ r) p ltac:(lia)) as Ht.
    fold h in Hh. fold t in Ht.
    split.
    + intros Hbig. rewrite Hsteps.
      rewrite challenge_bytes_large; [reflexivity|]. lia.
    + intros Hts Hhs. rewrite Hsteps.
      rewrite challenge_bytes_small by lia.
      eexists _, _, _. split; [reflexivity|].
      split; [unfold proof_dict; rewrite !dom_insert_L, dom_empty_L;
              set_solver|].
      split; [apply draw_range; lia|].
      repeat split; try reflexivity; try apply Z.mod_pos_bound; lia.
Qed.

Lemma tamper_prove_contract_witness :
  Schnorr3.Tamper.schnorr_prove (py_encode "abc") (str_limit + 1) 2 str_limit
    1 (const_rng 1) = Raise ValueError ∧
  (Schnorr3.Tamper.schnorr_prove (py_encode "abc") 89 0 2 9 (const_rng 5)
   = Raise ZeroDivisionError ∧
   (11 < 0 →
      Schnorr3.Tamper.schnorr_prove (py_encode "abc") 89 11 2 9 (const_rng 5)
      = Raise ValueError) ∧
   (1 ≤ 11 →
      Schnorr3.Tamper.schnorr_prove (py_encode "abc") 0 11 2 9 (const_rng 5)
      = Raise ValueError) ∧
   (1 ≤ 11 → 1 ≤ 89 →
    let h := hash_int (py_encode "abc") mod 11 in
    let r := draw 0 (11 - 1) (const_rng 5) in
    let t := 2 ^ r mod 89 in
    (str_limit ≤ t ∨ str_limit ≤ h →
       Schnorr3.Tamper.schnorr_prove (py_encode "abc") 89 11 2 9
         (const_rng 5) = Raise ValueError) ∧
    (t < str_limit → h < str_limit →
     ∃ c s y,
       Schnorr3.Tamper.schnorr_prove (py_encode "abc") 89 11 2 9
         (const_rng 5)
       = Ok (proof_dict t c s y h, advance (const_rng 5)) ∧
       dom (proof_dict t c s y h)
       = ({["commitment"; "challenge"; "response"; "public_value"; "hash"]}
          : gset string) ∧
       0 ≤ r ≤ 11 - 1 ∧
       0 ≤ t < 89 ∧ 0 ≤ y < 89 ∧ 0 ≤ c < 11 ∧ 0 ≤ s < 11 ∧ 0 ≤ h < 11 ∧
       c = hash_int (Schnorr3.challenge_input t h) mod 11 ∧
       s = (r + c * 9) mod 11 ∧
       y = 2 ^ 9 mod 89))).
Proof.
  pose proof notebook_bound_below_str_limit as Hlim.
  split.
  - destruct (tamper_prove_contract (py_encode "abc") (str_limit + 1) 2
                str_limit 1 (const_rng 1) ltac:(lia))
      as (_ & _ & _ & Hbig).
    apply (Hbig ltac:(lia) ltac:(lia)). left.
    unfold draw. cbn [tape pos const_rng].
    change (0 + 1 mod (2 - 1 - 0 + 1)) with 1.
    rewrite Z.pow_1_r, Z.mod_small by lia. lia.
  - apply (tamper_prove_contract (py_encode "abc") 89 11 2 9 (const_rng 5)).
    lia.
Defined.

(** X17.  The cell "Verifying a File".  Once the cell has returned,
    [valid_before] is [True], and [valid_after] is [True] exactly when
    the content read back after the rewrite has the same hash modulo the
    [q] the cell drew as the original content; a change of the file that
    keeps the hash modulo [q] is not detected. *)
Theorem tamper_cell_outcome fuel C C' st valid_before valid_after st' :
  Schnorr3Cells.tamper_cell fuel C C' st
  = Ok (Some (valid_before, valid_after), st') →
  valid_before = true ∧
  ∃ p q g st0,
    Schnorr3.generate_parameters fuel st = Ok (Some (p, q, g), st0) ∧
    (valid_after = true ↔ hash_int C' mod q = hash_int C mod q).
Proof.
  unfold Schnorr3Cells.tamper_cell, Schnorr3.generate_parameters,
    Schnorr3.keygen.
  unfold mbind at 1. unfold M_bind.
  destruct (Setup.generate_parameters_in 1000 10000 fuel st)
    as [[[[[p q] g]|] st0]|e] eqn:Hgen; try discriminate.
  pose proof (generate_parameters_in_valid _ _ _ _ _ _ _ _ Hgen) as Hv.
  pose proof (Z.prime_ge_2 _ (vp_prime_p _ _ _ Hv)) as Hp.
  pose proof (Z.prime_ge_2 _ (vp_prime_q _ _ _ Hv)) as Hq.
  destruct (vp_order _ _ _ Hv) as (Hq0 & Hgq & _).
  assert (Hlim : p ≤ str_limit ∧ q ≤ str_limit).
  { pose proof (generate_parameters_in_draws _ _ _ _ _ _ _ _ Hgen)
      as (_ & _ & _ & Hr).
    pose proof notebook_bound_below_str_limit.
    assert (q ≤ p - 1)
      by (apply Z.divide_pos_le; [lia|apply (vp_divides _ _ _ Hv)]).
    lia. }
  unfold mbind at 1. unfold M_bind. rewrite keygen_eval by lia.
  set (x := draw 1 (q - 1) st0).
  assert (Hx : 0 ≤ x) by (pose proof (draw_range 1 (q - 1) st0); lia).
  unfold mbind at 1. unfold M_bind.
  rewrite tamper_prove_eval by lia. cbv zeta.
  set (h := hash_int C mod q).
  set (r := 0 + tape (advance st0) (pos (advance st0)) mod (q - 1 - 0 + 1)).
  assert (Hr : 0 ≤ r).
  { pose proof (Z.mod_pos_bound (tape (advance st0) (pos (advance st0)))
                  (q - 1 - 0 + 1)). unfold r. lia. }
  set (t := g ^ r mod p).
  set (c := hash_int (Schnorr3.challenge_input t h) mod q).
  assert (Hc : 0 ≤ c).
  { pose proof (Z.mod_pos_bound (hash_int (Schnorr3.challenge_input t h)) q).
    unfold c. lia. }
  unfold mbind, M_bind, lift.
  rewrite !tamper_verify_eval by lia. fold h.
  rewrite Z.eqb_refl. cbn [negb].
  assert (Hacc : Sigma.sigma_verify p g (g ^ x mod p) t c ((r + c * x) mod q)
                 = Ok true)
    by (apply (honest_transcript_accepted p q g); assumption || lia).
  rewrite Hacc.
  destruct (Z.eqb_spec (hash_int C' mod q) h) as [E|E]; cbn [negb mret M_ret];
    intros [= <- <- <-]; (split; [reflexivity|]);
    exists p, q, g, st0; (split; [reflexivity|]).
  - split; auto.
  - split; [discriminate|]. intros E'. contradiction.
Qed.

Lemma tamper_cell_outcome_witness :
  Schnorr3Cells.tamper_cell 1
    (py_encode "This is confidential forensic evidence.")
    (py_encode "This is confidential forensic evidence. Altered!")
    (const_rng 19)
  = Ok (Some (true, true), Nat.iter 3 advance (const_rng 19)) ∧
  true = true ∧
  ∃ p q g st0,
    Schnorr3.generate_parameters 1 (const_rng 19)
    = Ok (Some (p, q, g), st0) ∧
    (true = true ↔
     hash_int (py_encode "This is confidential forensic evidence. Altered!")
       mod q
     = hash_int (py_encode "This is confidential forensic evidence.") mod q).
Proof.
  assert (H : Schnorr3Cells.tamper_cell 1
                (py_encode "This is confidential forensic evidence.")
                (py_encode "This is confidential forensic evidence. Altered!")
                (const_rng 19)
              = Ok (Some (true, true), Nat.iter 3 advance (const_rng 19)))
    by (vm_compute; reflexivity).
  split; [exact H|].
  exact (tamper_cell_outcome 1 _ _ (const_rng 19) true true _ H).
Defined.

(** *** The loop of the parameter search *)

(** One iteration of [while True]: draw [p], search, return or go on. *)
Lemma generate_parameters_in_step lo hi fuel st :
  lo ≤ hi →
  Setup.generate_parameters_in lo hi (S fuel) st
  = match search_for (draw lo hi st) with
    | Ok (Some (q, g)) => Ok (Some (draw lo hi st, q, g), advance st)
    | Ok None => Setup.generate_parameters_in lo hi fuel (advance st)
    | Raise e => Raise e
    end.
Proof.
  intros Hlohi. cbn [Setup.generate_parameters_in].
  unfold mbind at 1. unfold M_bind. rewrite randint_draw by assumption.
  unfold mbind, M_bind, lift, search_for.
  destruct (Setup.trial_division (draw lo hi st)) as [[|]|e];
    cbn; try reflexivity.
  destruct (Setup.search_q (draw lo hi st) (py_range 2 (draw lo hi st)))
    as [[[q g]|]|e]; reflexivity.
Qed.

Lemma search_for_total p : 0 ≤ p → ∃ found, search_for p = Ok found.
Proof.
  intros Hp. unfold search_for.
  destruct (trial_division_total p Hp) as [[|] ->]; cbn; [|eauto].
  apply search_q_total. intros q Hq%in_py_range. lia.
Qed.

Lemma search_for_valid p q g :
  search_for p = Ok (Some (q, g)) → valid_params p q g.
Proof.
  unfold search_for.
  destruct (Setup.trial_division p) as [[|]|e] eqn:Htd; cbn;
    try discriminate.
  intros Hs.
  apply search_q_sound in Hs; [|intros ? ?%in_py_range; lia].
  destruct Hs as (Hq & Hdiv & Hg & H1 & _).
  apply valid_params_intro; try assumption.
  apply trial_division_prime; [lia|assumption].
Qed.

(** While the draws find nothing the loop goes on, one entropy word per
    iteration. *)
Lemma generate_parameters_in_nothing_found lo hi k st :
  lo ≤ hi →
  (∀ i, (i < k)%nat →
        search_for (draw lo hi (Nat.iter i advance st)) = Ok None) →
  Setup.generate_parameters_in lo hi k st = Ok (None, Nat.iter k advance st).
Proof.
  intros Hlohi. revert st. induction k as [|k IH]; intros st Hnone;
    [reflexivity|].
  rewrite generate_parameters_in_step by assumption.
  pose proof (Hnone 0%nat ltac:(lia)) as H0.
  change (Nat.iter 0 advance st) with st in H0. rewrite H0.
  rewrite IH.
  - now rewrite <- Nat.iter_succ_r.
  - intros i Hi. rewrite <- Nat.iter_succ_r. apply Hnone. lia.
Qed.

(** The loop returns at the first draw that finds a pair. *)
Lemma generate_parameters_in_first_find lo hi k fuel st q g :
  lo ≤ hi →
  (∀ i, (i < k)%nat →
        search_for (draw lo hi (Nat.iter i advance st)) = Ok None) →
  search_for (draw lo hi (Nat.iter k advance st)) = Ok (Some (q, g)) →
  (k < fuel)%nat →
  Setup.generate_parameters_in lo hi fuel st
  = Ok (Some (draw lo hi (Nat.iter k advance st), q, g),
        Nat.iter (S k) advance st).
Proof.
  intros Hlohi. revert fuel st. induction k as [|k IH];
    intros fuel st Hnone Hfind Hfuel.
  - destruct fuel as [|fuel]; [lia|].
    rewrite generate_parameters_in_step by assumption.
    change (Nat.iter 0 advance st) with st in Hfind |- *.
    now rewrite Hfind.
  - destruct fuel as [|fuel]; [lia|].
    rewrite generate_parameters_in_step by assumption.
    pose proof (Hnone 0%nat ltac:(lia)) as H0.
    change (Nat.iter 0 advance st) with st in H0. rewrite H0.
    rewrite (IH fuel (advance st)).
    + now rewrite <- !Nat.iter_succ_r.
    + intros i Hi. rewrite <- Nat.iter_succ_r. apply Hnone. lia.
    + now rewrite <- Nat.iter_succ_r.
    + lia.
Qed.

(** C9 (as the code has it).  [generate_parameters], with the bounds of the
    notebooks ([0 <= lo <= hi <= 10000]), has no bound on its search and
    raises nothing.  While the values drawn find no pair [(q, g)], the
    loop [while True] goes on, one entropy word read per iteration; no
    iteration raises; and at the first draw [p] whose search finds a pair
    the function returns [(p, q, g)] in that iteration, a valid triple,
    however many more iterations are allowed. *)
Theorem generate_parameters_returns_at_first_find lo hi st k :
  0 ≤ lo ≤ hi → hi ≤ 10000 →
  (∀ i, (i < k)%nat →
        search_for (draw lo hi (Nat.iter i advance st)) = Ok None) →
  Setup.generate_parameters_in lo hi k st
  = Ok (None, Nat.iter k advance st) ∧
  (∃ found, search_for (draw lo hi (Nat.iter k advance st)) = Ok found) ∧
  (∀ q g,
     search_for (draw lo hi (Nat.iter k advance st)) = Ok (Some (q, g)) →
     valid_params (draw lo hi (Nat.iter k advance st)) q g ∧
     ∀ fuel, (k < fuel)%nat →
       Setup.generate_parameters_in lo hi fuel st
       = Ok (Some (draw lo hi (Nat.iter k advance st), q, g),
             Nat.iter (S k) advance st)).
Proof.
  intros Hlohi _ Hnone. split; [|split].
  - apply generate_parameters_in_nothing_found; [lia|assumption].
  - apply search_for_total.
    pose proof (draw_range lo hi (Nat.iter k advance st) ltac:(lia)). lia.
  - intros q g Hfind. split; [now apply search_for_valid|].
    intros fuel Hfuel.
    apply generate_parameters_in_first_find; (assumption || lia).
Qed.

Lemma generate_parameters_returns_at_first_find_witness :
  draw 20 100 (list_rng [17; 1; 69] 0) = 37 ∧
  draw 20 100 (advance (list_rng [17; 1; 69] 0)) = 21 ∧
  draw 20 100 (Nat.iter 2 advance (list_rng [17; 1; 69] 0)) = 89 ∧
  search_for 89 = Ok (Some (11, 2)) ∧
  Setup.generate_parameters_in 20 100 5 (list_rng [17; 1; 69] 0)
  = Ok (Some (89, 11, 2), Nat.iter 3 advance (list_rng [17; 1; 69] 0)) ∧
  (Setup.generate_parameters_in 20 100 2 (list_rng [17; 1; 69] 0)
   = Ok (None, Nat.iter 2 advance (list_rng [17; 1; 69] 0)) ∧
   (∃ found,
      search_for (draw 20 100 (Nat.iter 2 advance (list_rng [17; 1; 69] 0)))
      = Ok found) ∧
   (∀ q g,
      search_for (draw 20 100 (Nat.iter 2 advance (list_rng [17; 1; 69] 0)))
      = Ok (Some (q, g)) →
      valid_params
        (draw 20 100 (Nat.iter 2 advance (list_rng [17; 1; 69] 0))) q g ∧
      ∀ fuel, (2 < fuel)%nat →
        Setup.generate_parameters_in 20 100 fuel (list_rng [17; 1; 69] 0)
        = Ok (Some (draw 20 100
                      (Nat.iter 2 advance (list_rng [17; 1; 69] 0)), q, g),
              Nat.iter 3 advance (list_rng [17; 1; 69] 0)))).
Proof.
  split; [reflexivity|]. split; [reflexivity|]. split; [reflexivity|].
  split; [vm_compute; reflexivity|]. split; [vm_compute; reflexivity|].
  apply (generate_parameters_returns_at_first_find 20 100
           (list_rng [17; 1; 69] 0) 2).
  - lia.
  - lia.
  - intros i Hi. destruct i as [|[|i]]; [| |lia]; vm_compute; reflexivity.
Defined.
